(** * Fraud_Detection: the chart helpers of Code/utility.py

    A shallow embedding of [piechart], [barchart_continuous] and
    [barchart_categorical].  A pandas DataFrame is a list of records over a
    list of column names; every pandas / numpy call of the source is a named
    function below, composed in the order the source composes them.  What the
    functions hand to matplotlib (the table, the bar heights) is what the
    embedded functions return; drawing itself is not modelled.

    Numbers: a finite float is an exact rational ([Q]); [FNaN] is the float
    NaN.  Rounding, overflow and the infinities are outside the model, so
    the statements below are about counts, membership, order, bounds and
    tolerances, which the float64 values of the program satisfy as well.
    Where exactness itself is at stake, the float64 operations of the
    program are evaluated with the primitive floats ([linspace64],
    [true_divide64], [sum64]). *)

From Stdlib Require Import QArith Qabs Lqa ZArith Lia Sorted Permutation.
From Corelib Require Import PrimFloat Uint63Axioms.
From stdpp Require Import gmap strings list.

(** ** Cell values, floats and exceptions *)

(** What a cell of a DataFrame holds: a number, a string, the float NaN
    (pandas' missing number) or Python's None (missing in an object column). *)
Inductive value : Type :=
| Num (q : Q)
| Str (s : string)
| NaN
| PyNone.

Inductive float64 : Type :=
| Fin (q : Q)
| FNaN.

Inductive exn : Type := KeyError | ValueError | TypeError.

Inductive result (A : Type) : Type :=
| Ok (a : A)
| Raise (e : exn).
Arguments Ok {A} a.
Arguments Raise {A} e.

#[export] Instance result_bind : MBind result := fun A B k m =>
  match m with
  | Ok a => k a
  | Raise e => Raise e
  end.

Definition raises {A : Type} (m : result A) : Prop :=
  match m with
  | Ok _ => False
  | Raise _ => True
  end.

(** pandas.isna *)
Definition isna (v : value) : bool :=
  match v with
  | NaN | PyNone => true
  | _ => false
  end.

(** Python's [==] on cells; NaN is not equal to itself. *)
Definition value_eqb (a b : value) : bool :=
  match a, b with
  | Num x, Num y => Qeq_bool x y
  | Str x, Str y => String.eqb x y
  | PyNone, PyNone => true
  | _, _ => false
  end.

(** The order pandas sorts group keys by: numbers before strings, numbers by
    value, strings lexicographically. Missing values are never keys. *)
Definition value_leb (a b : value) : bool :=
  match a, b with
  | Num x, Num y => Qle_bool x y
  | Num _, _ => true
  | Str x, Str y => String.leb x y
  | Str _, Num _ => false
  | Str _, _ => true
  | _, _ => isna b
  end.

(** Truth value of a cell, as [np.count_nonzero] sees it: zero, the empty
    string and None are false; NaN is not zero, so it is true. *)
Definition nonzero (v : value) : bool :=
  match v with
  | Num q => negb (Qeq_bool q 0)
  | Str s => negb (String.eqb s "")
  | NaN => true
  | PyNone => false
  end.

(** ** DataFrames *)

Record DataFrame : Type := mkDataFrame {
  columns : list string;
  rows : list (gmap string value)
}.

(** The cell of record [r] in column [c]; a record without the key has NaN
    there, as in a frame built from a list of dicts. *)
Definition cell (c : string) (r : gmap string value) : value :=
  match r !! c with
  | Some v => v
  | None => NaN
  end.

Definition has_column (df : DataFrame) (c : string) : bool :=
  existsb (String.eqb c) (columns df).

(** [dataframe[c]] *)
Definition getitem (df : DataFrame) (c : string) : result (list value) :=
  if has_column df c then Ok (map (cell c) (rows df)) else Raise KeyError.

(** ** Sorting and grouping *)

Section Sort.
Context {A : Type} (le : A -> A -> bool).

Fixpoint insert_sorted (x : A) (l : list A) : list A :=
  match l with
  | [] => [x]
  | y :: l' => if le x y then x :: l else y :: insert_sorted x l'
  end.

(** A stable sort: among equal elements the earlier one stays first. *)
Fixpoint sort_by (l : list A) : list A :=
  match l with
  | [] => []
  | x :: l' => insert_sorted x (sort_by l')
  end.
End Sort.

(** Distinct elements of a list of cells, first occurrences kept. *)
Fixpoint unique (l : list value) : list value :=
  match l with
  | [] => []
  | x :: l' => x :: List.filter (fun y => negb (value_eqb x y)) (unique l')
  end.

(** The keys of [dataframe.groupby(field)]: the distinct non-missing values
    of the column, sorted. *)
Definition group_keys (df : DataFrame) (field : string) : list value :=
  sort_by value_leb
    (unique (List.filter (fun v => negb (isna v)) (map (cell field) (rows df)))).

(** The records of the group of key [k]. *)
Definition group_rows (df : DataFrame) (field : string) (k : value)
  : list (gmap string value) :=
  List.filter (fun r => value_eqb (cell field r) k) (rows df).

Definition Zsum (l : list Z) : Z := fold_right Z.add 0%Z l.
Definition Qsum (l : list Q) : Q := fold_right Qplus 0%Q l.

(** ** piechart *)

(** [np.count_nonzero] on the identifier cells of one group. *)
Definition count_nonzero (xs : list value) : Z :=
  Z.of_nat (length (List.filter nonzero xs)).

(** A row of the pivot: the category and its Count. *)
Record pivot_row : Type := mkPivot { p_key : value; p_count : Z }.

(** A row of the table [piechart] returns. *)
Record summary_row : Type := mkSummary {
  label : value;
  Count : Z;
  Concentration : float64
}.

(** [dataframe.pivot_table(index=field, values=unique_identifier,
    aggfunc=np.count_nonzero)]: a KeyError for an absent column. (What the
    pivot of a column grouped by itself looks like is not modelled:
    [piechart] never gets a table out of it.) *)
Definition pivot_table (df : DataFrame) (field unique_identifier : string)
  : result (list pivot_row) :=
  if negb (has_column df unique_identifier) then Raise KeyError
  else if negb (has_column df field) then Raise KeyError
  else Ok (map (fun k => mkPivot k
                   (count_nonzero (map (cell unique_identifier)
                                       (group_rows df field k))))
               (group_keys df field)).

(** [.sort_values(by=unique_identifier, ascending=False)]. pandas does not
    fix the order of categories with equal counts; here they keep the order
    of their keys. *)
Definition sort_values_desc (pvt : list pivot_row) : list pivot_row :=
  sort_by (fun a b => (p_count b <=? p_count a)%Z) pvt.

(** [x.Count / pvt.Count.sum()] on integers that are never negative: the
    only division by zero the program can reach is 0/0, which numpy answers
    with NaN. *)
Definition true_divide (c t : Z) : float64 :=
  match t with
  | Zpos p => Fin (c # p)
  | _ => FNaN
  end.

(** [Series.sum()] on floats: pandas skips NaN. *)
Definition nansum (l : list float64) : Q :=
  Qsum (omap (fun x => match x with Fin q => Some q | FNaN => None end) l).

(** [pvt[:cats]], Python's slice: a negative [cats] drops from the end. *)
Definition head_slice {A : Type} (cats : Z) (l : list A) : list A :=
  if (cats <? 0)%Z then firstn (Z.to_nat (Z.of_nat (length l) + cats)) l
  else firstn (Z.to_nat cats) l.

(** [pvt['Concentration'] = pvt.apply(lambda x: x.Count / pvt.Count.sum(),
    axis=1)] *)
Definition add_concentration (pvt : list pivot_row) : list summary_row :=
  let total := Zsum (map p_count pvt) in
  map (fun x => mkSummary (p_key x) (p_count x)
                 (true_divide (p_count x) total)) pvt.

(** The appended row [['Others', pvt.Count.sum() - top_n_cats.Count.sum(),
    1.0 - top_n_cats.Concentration.sum()]]. *)
Definition others_row (pvt top_n_cats : list summary_row) : summary_row :=
  mkSummary (Str "Others")
    (Zsum (map Count pvt) - Zsum (map Count top_n_cats))
    (Fin (1 - nansum (map Concentration top_n_cats))).

(** [top_n_cats.plot.pie(y='Concentration', ...)]: pandas draws a missing
    share as 0 and refuses a negative one. *)
Definition pie_refuses (table : list summary_row) : bool :=
  existsb (fun x => match Concentration x with
                    | Fin q => negb (Qle_bool 0 q)
                    | FNaN => false
                    end) table.

Definition piechart (df : DataFrame) (field : string) (cats : Z)
    (unique_identifier : string) : result (list summary_row) :=
  (* a column pivoted by itself leaves no column [field] for [set_index] *)
  if String.eqb field unique_identifier then Raise KeyError else
  agg ← pivot_table df field unique_identifier;
  let pvt := sort_values_desc agg in
  (* an empty pivot has no column to sort by *)
  if (length pvt =? 0)%nat then Raise KeyError else
  (* a field called Count or Concentration collides with the columns the
     function adds: [pvt.Count] is then no column of numbers *)
  if String.eqb field "Count" || String.eqb field "Concentration"
  then Raise TypeError else
  let pvt := add_concentration pvt in
  let top_n_cats := head_slice cats pvt in
  let table := top_n_cats ++ [others_row pvt top_n_cats] in
  if pie_refuses table then Raise ValueError else Ok table.

(** ** barchart_categorical *)

(** A numeric column read cell by cell: a missing cell is skipped by the
    aggregations, a string makes the column non-numeric. *)
Definition numeric (v : value) : result (option Q) :=
  match v with
  | Num q => Ok (Some q)
  | Str _ => Raise TypeError
  | NaN | PyNone => Ok None
  end.

Fixpoint numeric_column (l : list value) : result (list (option Q)) :=
  match l with
  | [] => Ok []
  | v :: l' =>
      x ← numeric v;
      xs ← numeric_column l';
      Ok (x :: xs)
  end.

(** The non-missing numbers of column [c] in a list of records. *)
Definition observed (c : string) (rs : list (gmap string value)) : list Q :=
  omap (fun r => match cell c r with Num q => Some q | _ => None end) rs.

(** A row of [.agg(['count', 'sum', 'mean'])]. *)
Record agg_row : Type := mkAgg {
  a_key : value;
  a_count : Z;
  a_sum : Q;
  a_mean : float64
}.

(** The group mean: the sum over the count of the non-missing values, NaN
    for a group without any. *)
Definition mean_of (s : Q) (c : Z) : float64 :=
  if (c =? 0)%Z then FNaN else Fin (s / inject_Z c).

(** The records that belong to a group: those with a category. *)
Definition grouped (df : DataFrame) (field : string) : list (gmap string value) :=
  List.filter (fun r => negb (isna (cell field r))) (rows df).

Definition barchart_categorical (df : DataFrame) (field binary_variable : string)
  : result (list agg_row) :=
  if negb (has_column df field) then Raise KeyError else
  _ ← getitem df binary_variable;
  (* only cells inside a group are aggregated *)
  _ ← numeric_column (map (cell binary_variable) (grouped df field));
  Ok (map (fun k =>
             let vals := observed binary_variable (group_rows df field k) in
             let count := Z.of_nat (length vals) in
             let sum := Qsum vals in
             mkAgg k count sum (mean_of sum count))
          (group_keys df field)).

(** ** barchart_continuous *)

(** Float arithmetic: exact on finite numbers, NaN is contagious. *)
Definition fadd (x y : float64) : float64 :=
  match x, y with
  | Fin a, Fin b => Fin (a + b)
  | _, _ => FNaN
  end.

Definition fsub (x y : float64) : float64 :=
  match x, y with
  | Fin a, Fin b => Fin (a - b)
  | _, _ => FNaN
  end.

Definition fmul (x y : float64) : float64 :=
  match x, y with
  | Fin a, Fin b => Fin (a * b)
  | _, _ => FNaN
  end.

(** A float over a positive integer. *)
Definition fdiv (x : float64) (d : Z) : float64 :=
  match x with
  | Fin a => Fin (a / inject_Z d)
  | FNaN => FNaN
  end.

(** [x < y] on floats; every comparison with NaN is false. *)
Definition fltb (x y : float64) : bool :=
  match x, y with
  | Fin a, Fin b => negb (Qle_bool b a)
  | _, _ => false
  end.

(** Equality of bin edges as [unique] sees it: all NaN are one value. *)
Definition fsame (x y : float64) : bool :=
  match x, y with
  | Fin a, Fin b => Qeq_bool a b
  | FNaN, FNaN => true
  | _, _ => false
  end.

Definition fisnan (x : float64) : bool :=
  match x with
  | FNaN => true
  | Fin _ => false
  end.

(** The arithmetic sum of a list of floats. *)
Definition fsum (l : list float64) : float64 := fold_right fadd (Fin 0) l.

(** [dataframe[binary_var] == x] on one cell. *)
Definition eq_num (v : value) (x : Q) : bool :=
  match v with
  | Num q => Qeq_bool q x
  | _ => false
  end.

(** [dataframe.loc[dataframe[binary_var] == x]] *)
Definition loc_eq (df : DataFrame) (binary_var : string) (x : Q)
  : result (list (gmap string value)) :=
  if has_column df binary_var
  then Ok (List.filter (fun r => eq_num (cell binary_var r) x) (rows df))
  else Raise KeyError.

Definition dataset_true (df : DataFrame) (binary_var : string) :=
  loc_eq df binary_var 1.
Definition dataset_false (df : DataFrame) (binary_var : string) :=
  loc_eq df binary_var 0.

Definition qmin (a b : Q) : Q := if Qle_bool a b then a else b.
Definition qmax (a b : Q) : Q := if Qle_bool a b then b else a.

Definition Qmin_list (l : list Q) : float64 :=
  match l with
  | [] => FNaN
  | x :: l' => Fin (fold_right qmin x l')
  end.

Definition Qmax_list (l : list Q) : float64 :=
  match l with
  | [] => FNaN
  | x :: l' => Fin (fold_right qmax x l')
  end.

(** [dataframe[field].min() if min is None else min]; the minimum skips
    missing cells and is NaN when nothing is left. *)
Definition default_min (df : DataFrame) (field : string) (min : option float64)
  : result float64 :=
  match min with
  | Some m => Ok m
  | None =>
      col ← getitem df field;
      xs ← numeric_column col;
      Ok (Qmin_list (omap id xs))
  end.

Definition default_max (df : DataFrame) (field : string) (max : option float64)
  : result float64 :=
  match max with
  | Some m => Ok m
  | None =>
      col ← getitem df field;
      xs ← numeric_column col;
      Ok (Qmax_list (omap id xs))
  end.

(** [np.linspace(start, stop, num)]: [num] samples, the end point included.
    With a single sample the step is undefined and the sample is
    [0 * delta + start]. (numpy's other route for a step that underflows to
    zero computes the same numbers when nothing is rounded.) *)
Definition linspace (start stop : float64) (num : Z) : result (list float64) :=
  if (num <? 0)%Z then Raise ValueError else
  let div := (num - 1)%Z in
  let delta := fsub stop start in
  let y := map (fun i => Fin (inject_Z (Z.of_nat i))) (seq 0 (Z.to_nat num)) in
  let y :=
    if (0 <? div)%Z
    then let step := fdiv delta div in
         map (fun i => fmul i step) y
    else map (fun i => fmul i delta) y in
  let y := map (fun v => fadd v start) y in
  Ok (if (1 <? num)%Z then firstn (Z.to_nat div) y ++ [stop] else y).

(** [pd.cut(x, bins)] for an array of bin edges, with the defaults
    [right=True], [include_lowest=False]. *)

(** The edges must not decrease anywhere. *)
Fixpoint decreases (bins : list float64) : bool :=
  match bins with
  | a :: (b :: _) as tl => fltb (fsub b a) (Fin 0) || decreases tl
  | _ => false
  end.

Fixpoint funique (l : list float64) : list float64 :=
  match l with
  | [] => []
  | x :: l' => x :: List.filter (fun y => negb (fsame x y)) (funique l')
  end.

(** Repeated edges are refused, except when there are just two edges. *)
Definition duplicate_edges (bins : list float64) : bool :=
  (length (funique bins) <? length bins)%nat && negb (length bins =? 2)%nat.

(** [bins.searchsorted(x, side='left')] on non-decreasing edges: how many
    edges lie strictly below [x]. *)
Definition searchsorted_left (bins : list float64) (x : Q) : nat :=
  length (List.filter (fun b => fltb b (Fin x)) bins).

(** The code pandas gives a cell: the index of the interval
    [(bins[i], bins[i+1]]] that holds it; no code for a missing cell, for a
    cell at or below the first edge and for one above the last edge. *)
Definition cut_code (bins : list float64) (v : value) : option nat :=
  match v with
  | Num x =>
      let ids := searchsorted_left bins x in
      if (ids =? length bins)%nat || (ids =? 0)%nat then None
      else Some (ids - 1)%nat
  | _ => None
  end.

(** The buckets [(left, right]] between consecutive edges. (The labels
    pandas prints for them show the edges rounded to three digits; the
    rounding of the labels is not modelled.) *)
Fixpoint intervals (bins : list float64) : list (float64 * float64) :=
  match bins with
  | a :: (b :: _) as tl => (a, b) :: intervals tl
  | _ => []
  end.

Definition has_str (l : list value) : bool :=
  existsb (fun v => match v with Str _ => true | _ => false end) l.

(** [pd.cut]: the checks on the edges, then the codes of the cells. A
    string cell cannot be compared with an edge (with no edge at all nothing
    is compared). An interval index cannot be built over a NaN edge. *)
Definition cut (x : list value) (bins : list float64)
  : result (list (option nat)) :=
  if decreases bins then Raise ValueError
  else if duplicate_edges bins then Raise ValueError
  else if has_str x && negb (length bins =? 0)%nat then Raise TypeError
  else if (2 <=? length bins)%nat && existsb fisnan bins then Raise ValueError
  else Ok (map (cut_code bins) x).

(** [groupby(field).size() / column.count()] on a cut column: for every
    interval the share of the bucketed cells that carry its code. *)
Definition bucket_size (codes : list (option nat)) (i : nat) : Z :=
  Z.of_nat (length (List.filter (fun c => bool_decide (c = Some i)) codes)).

Definition bucketed_count (codes : list (option nat)) : Z :=
  Z.of_nat (length (List.filter (fun c => bool_decide (c <> None)) codes)).

Definition fractions (ncat : nat) (codes : list (option nat)) : list float64 :=
  map (fun i => true_divide (bucket_size codes i) (bucketed_count codes))
      (seq 0 ncat).

(** What [barchart_continuous] draws: the bin edges, the interval labels on
    the x axis and the two series of bar heights. *)
Record bar_chart : Type := mkChart {
  edges : list float64;
  categories : list (float64 * float64);
  bars_true : list float64;
  bars_false : list float64
}.

Definition barchart_continuous (df : DataFrame) (field binary_var : string)
    (n : Z) (min max : option float64) : result bar_chart :=
  d_true ← dataset_true df binary_var;
  d_false ← dataset_false df binary_var;
  min ← default_min df field min;
  max ← default_max df field max;
  custom_bucket_array ← linspace min max n;
  _ ← getitem df field;
  codes_true ← cut (map (cell field) d_true) custom_bucket_array;
  codes_false ← cut (map (cell field) d_false) custom_bucket_array;
  let categories := intervals custom_bucket_array in
  Ok (mkChart custom_bucket_array categories
        (fractions (length categories) codes_true)
        (fractions (length categories) codes_false)).

(** ** Vocabulary of the statements *)

(** The tolerance 1e-9. *)
Definition tolerance : Q := 1 # 1000000000.

(** A list of floats adds up to 1.0 within the tolerance; a NaN sum does
    not. *)
Definition sums_to_one (l : list float64) : Prop :=
  exists q, fsum l = Fin q /\ (Qabs (q - 1) <= tolerance)%Q.

(** The [i]-th sample of [np.linspace(a, b, n)] in exact arithmetic. *)
Definition sample (a b : Q) (n : Z) (i : nat) : Q :=
  (a + inject_Z (Z.of_nat i) * ((b - a) / inject_Z (n - 1)))%Q.

(** A rational that a float64 holds exactly: m * 2^e with |m| < 2^53 and
    -1074 <= e <= 971. Every cell of a float column is one, and every
    integer up to 2^53 in magnitude. *)
Definition float64_exact (q : Q) : Prop :=
  exists m e : Z,
    (Z.abs m < 2 ^ 53)%Z /\ (-1074 <= e <= 971)%Z /\
    (q == inject_Z m * 2 ^ e)%Q.

(** The cell lies in the bucket [(lo, hi]]. *)
Definition in_bucket (lo hi : Q) (v : value) : bool :=
  match v with
  | Num x => negb (Qle_bool x lo) && Qle_bool x hi
  | _ => false
  end.

(** How many records of [rs] have their [field] in the bucket [(lo, hi]]. *)
Definition bucket_rows (field : string) (lo hi : Q)
    (rs : list (gmap string value)) : Z :=
  Z.of_nat (length (List.filter (fun r => in_bucket lo hi (cell field r)) rs)).

(** The shares of the buckets between the consecutive edges [es] among the
    records of [rs] that lie in some bucket, that is between the first edge
    (excluded) and the last. *)
Definition shares (field : string) (es : list Q)
    (rs : list (gmap string value)) : list float64 :=
  map (fun i => true_divide
                  (bucket_rows field (nth i es 0%Q) (nth (S i) es 0%Q) rs)
                  (bucket_rows field (nth 0 es 0%Q)
                     (nth (length es - 1) es 0%Q) rs))
      (seq 0 (length es - 1)).

(** ** The same operations on float64 *)

(** An integer below 2^63 as a float64. *)
Definition float64_of_Z (z : Z) : PrimFloat.float :=
  PrimFloat.of_uint63 (Uint63Axioms.of_Z z).

(** [np.linspace(start, stop, num)] for [num >= 2], operation by operation:
    [step = delta / div], then [arange(0, num) * step + start] (through
    [/ div * delta] when the step underflows to 0), and the last sample set
    to [stop]. *)
Definition linspace64 (start stop : PrimFloat.float) (num : Z)
  : list PrimFloat.float :=
  let div := float64_of_Z (num - 1) in
  let delta := PrimFloat.sub stop start in
  let y := map (fun i => float64_of_Z (Z.of_nat i)) (seq 0 (Z.to_nat num)) in
  let step := PrimFloat.div delta div in
  let y :=
    if PrimFloat.eqb step (float64_of_Z 0)
    then map (fun i => PrimFloat.mul (PrimFloat.div i div) delta) y
    else map (fun i => PrimFloat.mul i step) y in
  let y := map (fun v => PrimFloat.add v start) y in
  firstn (Z.to_nat (num - 1)) y ++ [stop].

(** The float64 quotient of two counts. *)
Definition true_divide64 (c t : Z) : PrimFloat.float :=
  PrimFloat.div (float64_of_Z c) (float64_of_Z t).

(** The bar heights of a cut column as float64 quotients. *)
Definition fractions64 (ncat : nat) (codes : list (option nat))
  : list PrimFloat.float :=
  map (fun i => true_divide64 (bucket_size codes i) (bucketed_count codes))
      (seq 0 ncat).

(** The float64 sum of a list, added from left to right. *)
Definition sum64 (l : list PrimFloat.float) : PrimFloat.float :=
  fold_left PrimFloat.add l (float64_of_Z 0).

(** ** Sample frames *)

(** A record from its (column, cell) pairs. *)
Definition mkrow (l : list (string * value)) : gmap string value := list_to_map l.

(** Ten records: six red, three blue, one green, identifiers 1 to 10. *)

Definition colors : DataFrame :=
  mkDataFrame ["color"; "VIN"]
    (map (fun '(c, i) => mkrow [("color", Str c); ("VIN", Num (inject_Z i))])
       [("red", 1); ("blue", 2); ("red", 3); ("green", 4); ("red", 5);
        ("blue", 6); ("red", 7); ("red", 8); ("blue", 9); ("red", 10)]%Z).

(** The table of the color example with two categories kept. *)
Definition colors_table : list summary_row :=
  [mkSummary (Str "red") 6 (Fin (6 # 10));
   mkSummary (Str "blue") 3 (Fin (3 # 10));
   mkSummary (Str "Others") 1 (Fin (1 - ((6 # 10) + ((3 # 10) + 0))))].

(** A frame whose only record carries the identifier 0. *)
Definition zero_identifier : DataFrame :=
  mkDataFrame ["color"; "VIN"] [mkrow [("color", Str "a"); ("VIN", Num 0)]].

(** A frame in which no record carries an identifier. *)
Definition unidentified : DataFrame :=
  mkDataFrame ["color"; "VIN"]
    [mkrow [("color", Str "red"); ("VIN", PyNone)];
     mkrow [("color", Str "blue"); ("VIN", PyNone)]].

(** Two records of one category; the identifier of the first is 0. *)
Definition identifier_zero : DataFrame :=
  mkDataFrame ["color"; "VIN"]
    [mkrow [("color", Str "a"); ("VIN", Num 0)];
     mkrow [("color", Str "a"); ("VIN", Num 7)]].

(** Two records of category "a"; the flag of the second is missing. *)
Definition flag_missing : DataFrame :=
  mkDataFrame ["color"; "flag"]
    [mkrow [("color", Str "a"); ("flag", Num 1)];
     mkrow [("color", Str "a"); ("flag", NaN)]].

(** Flags 1, 0, 2 and a missing flag. *)
Definition flags : DataFrame :=
  mkDataFrame ["x"; "y"]
    [mkrow [("x", Num 10); ("y", Num 1)];
     mkrow [("x", Num 20); ("y", Num 0)];
     mkrow [("x", Num 30); ("y", Num 2)];
     mkrow [("x", Num 40); ("y", NaN)]].

(** A frame whose field x is the same in every record. *)
Definition constant_field : DataFrame :=
  mkDataFrame ["x"; "y"]
    [mkrow [("x", Num 3); ("y", Num 1)]; mkrow [("x", Num 3); ("y", Num 0)]].

(** Three records of the true class with x = 0, 50 and 100. *)
Definition three_points : DataFrame :=
  mkDataFrame ["x"; "y"]
    [mkrow [("x", Num 0); ("y", Num 1)];
     mkrow [("x", Num 50); ("y", Num 1)];
     mkrow [("x", Num 100); ("y", Num 1)]].

(** Both classes with values inside and outside the range 0..100. *)
Definition in_and_out : DataFrame :=
  mkDataFrame ["x"; "y"]
    [mkrow [("x", Num 0); ("y", Num 1)];
     mkrow [("x", Num 50); ("y", Num 1)];
     mkrow [("x", Num 100); ("y", Num 1)];
     mkrow [("x", Num 30); ("y", Num 0)];
     mkrow [("x", Num 200); ("y", Num 0)];
     mkrow [("x", Num 7); ("y", Num 2)]].

(** Two categories with flags: "a" has 1, 0, 1 and a missing flag, "b" has
    0 and 1. *)
Definition mixed_flags : DataFrame :=
  mkDataFrame ["color"; "flag"]
    [mkrow [("color", Str "a"); ("flag", Num 1)];
     mkrow [("color", Str "a"); ("flag", Num 0)];
     mkrow [("color", Str "a"); ("flag", Num 1)];
     mkrow [("color", Str "a"); ("flag", NaN)];
     mkrow [("color", Str "b"); ("flag", Num 0)];
     mkrow [("color", Str "b"); ("flag", Num 1)]].

(** Six records of the true class with x = 1, ..., 6. *)
Definition six_values : DataFrame :=
  mkDataFrame ["x"; "y"]
    (map (fun x => mkrow [("x", Num (inject_Z x)); ("y", Num 1)])
       [1; 2; 3; 4; 5; 6]%Z).

(** * Properties *)

(** ** The sort *)

Section SortFacts.
Context {A : Type} (le : A -> A -> bool).
Hypothesis le_total : forall a b, le a b = true \/ le b a = true.
Hypothesis le_trans : forall a b c, le a b = true -> le b c = true -> le a c = true.

Lemma insert_sorted_perm x l : Permutation (insert_sorted le x l) (x :: l).
Proof.
  induction l as [|y l IH]; simpl; [reflexivity|].
  destruct (le x y); [reflexivity|].
  rewrite IH. apply perm_swap.
Qed.

Lemma sort_by_perm l : Permutation (sort_by le l) l.
Proof.
  induction l as [|x l IH]; simpl; [reflexivity|].
  rewrite insert_sorted_perm. now constructor.
Qed.

Lemma insert_sorted_sorted x l :
  StronglySorted (fun a b => le a b = true) l ->
  StronglySorted (fun a b => le a b = true) (insert_sorted le x l).
Proof.
  induction 1 as [|y l Hs IH Hall]; simpl.
  - repeat constructor.
  - destruct (le x y) eqn:Hxy.
    + constructor; [now constructor|].
      constructor; [exact Hxy|].
      rewrite List.Forall_forall in *. intros z Hz. eapply le_trans; eauto.
    + constructor; [exact IH|].
      eapply Permutation_Forall; [symmetry; apply insert_sorted_perm|].
      constructor; [|exact Hall].
      destruct (le_total x y) as [H|H]; congruence.
Qed.

Lemma sort_by_sorted l : StronglySorted (fun a b => le a b = true) (sort_by le l).
Proof.
  induction l as [|x l IH]; simpl; [constructor|].
  now apply insert_sorted_sorted.
Qed.

Lemma sort_by_length l : length (sort_by le l) = length l.
Proof. apply Permutation_length, sort_by_perm. Qed.
End SortFacts.

Lemma StronglySorted_firstn {A} (R : A -> A -> Prop) n l :
  StronglySorted R l -> StronglySorted R (firstn n l).
Proof.
  intros H. revert n. induction H as [|x l Hs IH Hall]; intros [|n]; simpl;
    try constructor.
  - apply IH.
  - rewrite List.Forall_forall in *. intros y Hy. apply Hall.
    rewrite <- (firstn_skipn n l). apply in_or_app. now left.
Qed.

Lemma StronglySorted_map {A B} (f : A -> B) (R : B -> B -> Prop) l :
  StronglySorted (fun a b => R (f a) (f b)) l -> StronglySorted R (map f l).
Proof.
  induction 1 as [|x l Hs IH Hall]; simpl; constructor; [exact IH|].
  rewrite List.Forall_forall in *. intros y Hy.
  apply in_map_iff in Hy as [z [<- Hz]]. now apply Hall.
Qed.

Lemma StronglySorted_weaken {A} (R R' : A -> A -> Prop) l :
  (forall a b, R a b -> R' a b) -> StronglySorted R l -> StronglySorted R' l.
Proof.
  intros HR. induction 1 as [|x l Hs IH Hall]; constructor; [exact IH|].
  rewrite List.Forall_forall in *. auto.
Qed.

Lemma head_slice_prefix {A} cats (l : list A) :
  exists rest, l = head_slice cats l ++ rest.
Proof.
  unfold head_slice. destruct (cats <? 0)%Z;
    eexists; symmetry; apply firstn_skipn.
Qed.

Lemma head_slice_all {A} cats (l : list A) :
  (Z.of_nat (length l) <= cats)%Z -> head_slice cats l = l.
Proof.
  intros H. unfold head_slice.
  destruct (cats <? 0)%Z eqn:E; [apply Z.ltb_lt in E; lia|].
  apply firstn_all2. lia.
Qed.

Lemma head_slice_sorted {A} (R : A -> A -> Prop) cats l :
  StronglySorted R l -> StronglySorted R (head_slice cats l).
Proof. unfold head_slice. destruct (cats <? 0)%Z; apply StronglySorted_firstn. Qed.

(** ** Sums *)

Lemma Zsum_app l1 l2 : Zsum (l1 ++ l2) = (Zsum l1 + Zsum l2)%Z.
Proof. induction l1; simpl; lia. Qed.

Lemma Zsum_nonneg l : Forall (fun z => 0 <= z)%Z l -> (0 <= Zsum l)%Z.
Proof. induction 1; simpl; lia. Qed.

Lemma Zsum_perm l1 l2 : Permutation l1 l2 -> Zsum l1 = Zsum l2.
Proof. induction 1; simpl; lia. Qed.

Lemma fsum_fin (qs : list Q) : fsum (map Fin qs) = Fin (Qsum qs).
Proof.
  induction qs as [|q qs IH]; [reflexivity|].
  change (fsum (map Fin (q :: qs))) with (fadd (Fin q) (fsum (map Fin qs))).
  now rewrite IH.
Qed.

Lemma Qsum_app l1 l2 : Qsum (l1 ++ l2) == Qsum l1 + Qsum l2.
Proof.
  induction l1 as [|x l1 IH]; simpl; [ring|]. rewrite IH. ring.
Qed.

(** ** piechart: the shape of the returned table *)

Lemma piechart_inv df field cats uid T :
  piechart df field cats uid = Ok T ->
  exists agg,
    pivot_table df field uid = Ok agg /\ agg <> [] /\
    let pvt := add_concentration (sort_values_desc agg) in
    T = head_slice cats pvt ++ [others_row pvt (head_slice cats pvt)].
Proof.
  unfold piechart. destruct (String.eqb field uid); [discriminate|].
  destruct (pivot_table df field uid) as [agg|e]; simpl; [|discriminate].
  destruct (Nat.eqb_spec (length (sort_values_desc agg)) 0) as [E|E]; [discriminate|].
  destruct (String.eqb field "Count" || String.eqb field "Concentration");
    [discriminate|].
  destruct (pie_refuses _); [discriminate|].
  intros [= <-]. exists agg. repeat split.
  intros ->. now apply E.
Qed.

Lemma add_concentration_Count pvt :
  map Count (add_concentration pvt) = map p_count pvt.
Proof. unfold add_concentration. rewrite map_map. reflexivity. Qed.

Lemma count_nonzero_nonneg xs : (0 <= count_nonzero xs)%Z.
Proof. unfold count_nonzero. lia. Qed.

Lemma pivot_table_nonneg df field uid agg :
  pivot_table df field uid = Ok agg ->
  Forall (fun z => 0 <= z)%Z (map p_count agg).
Proof.
  unfold pivot_table.
  destruct (negb (has_column df uid)); [discriminate|].
  destruct (negb (has_column df field)); [discriminate|].
  intros [= <-]. rewrite map_map. simpl.
  apply List.Forall_forall. intros z Hz. apply in_map_iff in Hz as [k [<- _]].
  apply count_nonzero_nonneg.
Qed.

Lemma sort_values_desc_perm agg : Permutation (sort_values_desc agg) agg.
Proof. apply sort_by_perm. Qed.

Lemma sort_values_desc_sorted agg :
  StronglySorted (fun a b => p_count b <= p_count a)%Z (sort_values_desc agg).
Proof.
  unfold sort_values_desc.
  eapply StronglySorted_weaken; [|apply sort_by_sorted].
  - intros a b H. now apply Z.leb_le in H.
  - intros a b. destruct (Z.leb_spec (p_count b) (p_count a)); [now left|right].
    apply Z.leb_le. lia.
  - intros a b c H1 H2. apply Z.leb_le in H1, H2. apply Z.leb_le. lia.
Qed.

Lemma add_concentration_sorted pvt :
  StronglySorted (fun a b => p_count b <= p_count a)%Z pvt ->
  StronglySorted (fun a b => Count b <= Count a)%Z (add_concentration pvt).
Proof.
  intros H. unfold add_concentration.
  generalize (Zsum (map p_count pvt)) as total. intros total.
  induction H as [|x l Hs IH Hall]; simpl; constructor.
  - exact IH.
  - rewrite List.Forall_forall in *. intros y Hy.
    apply in_map_iff in Hy as [z [<- Hz]]. simpl. now apply Hall.
Qed.

Lemma piechart_colors : piechart colors "color" 2 "VIN" = Ok colors_table.
Proof. vm_compute. reflexivity. Qed.

(** C9. The rows of the table that piechart returns are in descending order
    of Count, except for the row labelled Others, which is the last row. *)
Theorem piechart_sorted_others_last df field cats unique_identifier T :
  piechart df field cats unique_identifier = Ok T ->
  exists top others,
    T = top ++ [others] /\
    label others = Str "Others" /\
    StronglySorted (fun a b => Count b <= Count a)%Z top.
Proof.
  intros H. apply piechart_inv in H as (agg & _ & _ & ->).
  eexists _, _. split; [reflexivity|]. split; [reflexivity|].
  apply head_slice_sorted, add_concentration_sorted, sort_values_desc_sorted.
Qed.

Lemma piechart_sorted_others_last_witness :
  piechart colors "color" 2 "VIN" = Ok colors_table /\
  exists top others,
    colors_table = top ++ [others] /\
    label others = Str "Others" /\
    StronglySorted (fun a b => Count b <= Count a)%Z top.
Proof.
  split; [vm_compute; reflexivity|].
  apply (piechart_sorted_others_last colors "color" 2 "VIN").
  vm_compute; reflexivity.
Defined.

(** ** piechart: counts and concentrations *)

Lemma head_slice_map {A B} (f : A -> B) cats l :
  map f (head_slice cats l) = head_slice cats (map f l).
Proof.
  unfold head_slice. rewrite length_map.
  destruct (cats <? 0)%Z; symmetry; apply firstn_map.
Qed.

Lemma head_slice_fin cats (qs : list Q) :
  exists qs', head_slice cats (map Fin qs) = map Fin qs'.
Proof. exists (head_slice cats qs). symmetry. apply head_slice_map. Qed.

Lemma add_concentration_fin pvt p :
  Zsum (map p_count pvt) = Zpos p ->
  map Concentration (add_concentration pvt) =
  map Fin (map (fun c => c # p) (map p_count pvt)).
Proof.
  intros H. unfold add_concentration. rewrite H, !map_map. reflexivity.
Qed.

Lemma nansum_fin qs : nansum (map Fin qs) = Qsum qs.
Proof.
  unfold nansum. f_equal. induction qs as [|q qs IH]; [reflexivity|].
  cbn. now f_equal.
Qed.

Lemma Qsum_ratios l p : Qsum (map (fun c => c # p) l) == Zsum l # p.
Proof.
  induction l as [|c l IH]; simpl; [reflexivity|].
  rewrite IH. unfold Qeq, Qplus. simpl. nia.
Qed.

Lemma piechart_total df field cats uid agg T :
  pivot_table df field uid = Ok agg ->
  piechart df field cats uid = Ok T ->
  Zsum (map Count T) = Zsum (map p_count agg).
Proof.
  intros Hagg H. apply piechart_inv in H as (agg' & Hagg' & _ & ->).
  rewrite Hagg in Hagg'. injection Hagg' as <-.
  rewrite map_app, Zsum_app. simpl.
  rewrite add_concentration_Count.
  rewrite (Zsum_perm _ _ (Permutation_map p_count (sort_values_desc_perm agg))).
  lia.
Qed.

(** C1 (as amended). When the grand total of the counts is positive, the
    Concentration values of the table that piechart returns, the Others row
    included, are all numbers and add up to exactly 1, hence to 1.0 within
    1e-9. *)
Theorem piechart_concentration_sum df field cats unique_identifier T :
  piechart df field cats unique_identifier = Ok T ->
  (0 < Zsum (map Count T))%Z ->
  (exists q, fsum (map Concentration T) = Fin q /\ (q == 1)%Q) /\
  sums_to_one (map Concentration T).
Proof.
  intros H Hpos.
  destruct (piechart_inv _ _ _ _ _ H) as (agg & Hagg & _ & HT).
  rewrite (piechart_total _ _ _ _ _ _ Hagg H) in Hpos.
  rewrite <- (Zsum_perm _ _ (Permutation_map p_count (sort_values_desc_perm agg)))
    in Hpos.
  destruct (Zsum (map p_count (sort_values_desc agg))) as [|p|p] eqn:Htot; try lia.
  simpl in HT. subst T. clear H. unfold sums_to_one, others_row.
  rewrite map_app. cbn [map Concentration].
  rewrite head_slice_map, (add_concentration_fin _ p Htot).
  destruct (head_slice_fin cats
              (map (fun c => c # p) (map p_count (sort_values_desc agg))))
    as [qs Hqs].
  rewrite Hqs, nansum_fin.
  change [Fin (1 - Qsum qs)] with (map Fin [(1 - Qsum qs)%Q]).
  rewrite <- map_app, fsum_fin.
  assert (Hq : (Qsum (qs ++ [1 - Qsum qs]) == 1)%Q).
  { rewrite Qsum_app. simpl. ring. }
  split.
  - eexists. split; [reflexivity|exact Hq].
  - eexists. split; [reflexivity|].
    rewrite Hq. vm_compute. discriminate.
Qed.

Lemma piechart_concentration_sum_witness :
  piechart colors "color" 2 "VIN" = Ok colors_table /\
  (0 < Zsum (map Count colors_table))%Z /\
  (exists q, fsum (map Concentration colors_table) = Fin q /\ (q == 1)%Q) /\
  sums_to_one (map Concentration colors_table).
Proof.
  split; [vm_compute; reflexivity|].
  split; [vm_compute; reflexivity|].
  apply (piechart_concentration_sum colors "color" 2 "VIN").
  - vm_compute; reflexivity.
  - vm_compute; reflexivity.
Defined.

(** C1, counterexample. For the frame whose single record has identifier 0,
    the count of its category is 0, the grand total is 0, the category's
    Concentration is 0/0 = NaN, and the column does not add up to 1.0. *)
Lemma piechart_concentration_sum_counterexample :
  exists T,
    piechart zero_identifier "color" 5 "VIN" = Ok T /\
    T = [mkSummary (Str "a") 0 FNaN; mkSummary (Str "Others") 0 (Fin (1 - 0))] /\
    ~ sums_to_one (map Concentration T).
Proof.
  eexists. split; [vm_compute; reflexivity|]. split; [reflexivity|].
  intros [q [Hq _]]. vm_compute in Hq. discriminate.
Qed.

Lemma pivot_table_length df field uid agg :
  pivot_table df field uid = Ok agg ->
  length agg = length (group_keys df field).
Proof.
  unfold pivot_table.
  destruct (negb (has_column df uid)); [discriminate|].
  destruct (negb (has_column df field)); [discriminate|].
  intros [= <-]. apply length_map.
Qed.

Lemma Zsum_head_slice_le cats l :
  Forall (fun z => 0 <= z)%Z l -> (Zsum (head_slice cats l) <= Zsum l)%Z.
Proof.
  intros Hl. destruct (head_slice_prefix cats l) as [rest Hrest].
  rewrite Hrest at 2. rewrite Zsum_app.
  assert (0 <= Zsum rest)%Z; [|lia].
  apply Zsum_nonneg. rewrite Hrest in Hl. apply Forall_app in Hl. tauto.
Qed.

(** C2 (as amended). In every table that piechart returns, the last row,
    Others, has Count equal to the grand total minus the sum of the Counts of
    the retained rows, and that Count is never negative. When [cats] is at
    least the number of distinct categories, the Count of Others is 0 and,
    provided the grand total is positive, its Concentration is 0 within
    1e-9. *)
Theorem piechart_others_row df field cats unique_identifier agg T :
  pivot_table df field unique_identifier = Ok agg ->
  piechart df field cats unique_identifier = Ok T ->
  exists top others,
    T = top ++ [others] /\
    top = head_slice cats (add_concentration (sort_values_desc agg)) /\
    label others = Str "Others" /\
    Count others = (Zsum (map p_count agg) - Zsum (map Count top))%Z /\
    (0 <= Count others)%Z /\
    ((Z.of_nat (length (group_keys df field)) <= cats)%Z ->
     Count others = 0%Z /\
     ((0 < Zsum (map p_count agg))%Z ->
      exists q, Concentration others = Fin q /\ (Qabs q <= tolerance)%Q)).
Proof.
  intros Hagg H.
  destruct (piechart_inv _ _ _ _ _ H) as (agg' & Hagg' & _ & ->).
  rewrite Hagg in Hagg'. injection Hagg' as <-. cbv zeta.
  set (top := head_slice cats (add_concentration (sort_values_desc agg))).
  pose proof (Permutation_map p_count (sort_values_desc_perm agg)) as Hperm.
  pose proof (Zsum_perm _ _ Hperm) as Hsum.
  eexists _, _. split; [reflexivity|]. split; [reflexivity|].
  split; [reflexivity|].
  unfold others_row. cbn [Count Concentration].
  fold top. rewrite add_concentration_Count, Hsum.
  split; [reflexivity|].
  assert (Hnn : Forall (fun z => 0 <= z)%Z (map p_count (sort_values_desc agg))).
  { eapply Permutation_Forall; [symmetry; exact Hperm|].
    eapply pivot_table_nonneg; eauto. }
  split.
  - unfold top. rewrite head_slice_map, add_concentration_Count.
    pose proof (Zsum_head_slice_le cats _ Hnn). lia.
  - intros Hcats.
    assert (Hall : top = add_concentration (sort_values_desc agg)).
    { unfold top. apply head_slice_all.
      unfold add_concentration. rewrite length_map.
      unfold sort_values_desc. rewrite sort_by_length.
      rewrite (pivot_table_length _ _ _ _ Hagg). exact Hcats. }
    rewrite Hall, add_concentration_Count, Hsum.
    split; [lia|].
    intros Hpos. eexists. split; [reflexivity|].
    destruct (Zsum (map p_count (sort_values_desc agg))) as [|p|p] eqn:Htot;
      try lia.
    rewrite (add_concentration_fin _ p Htot), nansum_fin, Qsum_ratios, Htot.
    assert (E : (1 - (Z.pos p # p) == 0)%Q).
    { unfold Qeq, Qminus, Qplus, Qopp. simpl. lia. }
    rewrite E. vm_compute. discriminate.
Qed.

Lemma piechart_others_row_witness :
  pivot_table colors "color" "VIN" =
    Ok [mkPivot (Str "blue") 3; mkPivot (Str "green") 1; mkPivot (Str "red") 6] /\
  exists T top others,
    piechart colors "color" 3 "VIN" = Ok T /\
    T = top ++ [others] /\
    label others = Str "Others" /\
    Count others = 0%Z /\
    exists q, Concentration others = Fin q /\ (Qabs q <= tolerance)%Q.
Proof.
  split; [vm_compute; reflexivity|].
  eexists.
  destruct (piechart_others_row colors "color" 3 "VIN"
              [mkPivot (Str "blue") 3; mkPivot (Str "green") 1;
               mkPivot (Str "red") 6] _ eq_refl eq_refl)
    as (top & others & HT & _ & Hl & _ & _ & H0).
  exists top, others. split; [reflexivity|]. split; [exact HT|].
  split; [exact Hl|].
  destruct H0 as [Hc Hq]; [vm_compute; discriminate|].
  split; [exact Hc|]. apply Hq. vm_compute; reflexivity.
Defined.

(** C2, counterexample. Two categories, no identifier anywhere, [cats] = 2:
    every count is 0, so the concentrations are 0/0, the sum that skips NaN
    is 0 and the Others row gets Concentration 1, not 0. *)
Lemma piechart_others_row_counterexample :
  (Z.of_nat (length (group_keys unidentified "color")) <= 2)%Z /\
  piechart unidentified "color" 2 "VIN" =
    Ok [mkSummary (Str "blue") 0 FNaN; mkSummary (Str "red") 0 FNaN;
        mkSummary (Str "Others") 0 (Fin (1 - 0))] /\
  ~ (1 - 0 == 0)%Q.
Proof.
  split; [vm_compute; discriminate|].
  split; [vm_compute; reflexivity|].
  vm_compute. discriminate.
Qed.

(** ** piechart: what the count of a category counts *)

Lemma filter_length_map {A B} (f : A -> B) (p : B -> bool) l :
  length (List.filter p (map f l)) = length (List.filter (fun a => p (f a)) l).
Proof.
  induction l as [|a l IH]; simpl; [reflexivity|].
  destruct (p (f a)); simpl; now rewrite IH.
Qed.

Lemma filter_filter_and {A} (p q : A -> bool) l :
  List.filter q (List.filter p l) = List.filter (fun a => p a && q a) l.
Proof.
  induction l as [|a l IH]; simpl; [reflexivity|].
  destruct (p a); simpl; [destruct (q a)|]; now rewrite IH.
Qed.

(** The Count of a category is the number of its records whose identifier is
    true for [np.count_nonzero]: a NaN identifier is counted, an identifier
    0, an empty one and None are not. *)
Lemma pivot_table_count df field uid agg x :
  pivot_table df field uid = Ok agg -> In x agg ->
  p_count x =
  Z.of_nat (length (List.filter
                      (fun r => value_eqb (cell field r) (p_key x)
                                && nonzero (cell uid r)) (rows df))).
Proof.
  unfold pivot_table.
  destruct (negb (has_column df uid)); [discriminate|].
  destruct (negb (has_column df field)); [discriminate|].
  intros [= <-] Hx. apply in_map_iff in Hx as [k [<- _]]. simpl.
  unfold count_nonzero, group_rows.
  now rewrite filter_length_map, filter_filter_and.
Qed.

(** C3, at the failing input. Both records of category "a" have an
    identifier, yet the pivot counts one: [np.count_nonzero] leaves out the
    record whose identifier is 0. *)
Theorem pivot_count_drops_zero_identifier :
  pivot_table identifier_zero "color" "VIN" = Ok [mkPivot (Str "a") 1] /\
  length (List.filter (fun r => negb (isna (cell "VIN" r)))
            (group_rows identifier_zero "color" (Str "a"))) = 2%nat.
Proof. split; vm_compute; reflexivity. Qed.

(** The other side of the same aggregation: a record whose identifier is the
    float NaN is missing its identifier and is counted all the same. *)
Example pivot_count_keeps_nan_identifier :
  pivot_table
    (mkDataFrame ["color"; "VIN"] [mkrow [("color", Str "a"); ("VIN", NaN)]])
    "color" "VIN" = Ok [mkPivot (Str "a") 1].
Proof. vm_compute; reflexivity. Qed.

(** ** Group keys *)

Lemma value_eqb_refl v : isna v = false -> value_eqb v v = true.
Proof.
  destruct v; simpl; try discriminate; intros _.
  - apply Qeq_bool_refl.
  - apply String.eqb_refl.
Qed.

Lemma value_eqb_sym a b : value_eqb a b = true -> value_eqb b a = true.
Proof.
  destruct a, b; simpl; try discriminate; auto.
  - apply Qeq_bool_sym.
  - rewrite String.eqb_sym. auto.
Qed.

Lemma value_eqb_trans a b c :
  value_eqb a b = true -> value_eqb b c = true -> value_eqb a c = true.
Proof.
  destruct a, b, c; simpl; try discriminate; auto.
  - apply Qeq_bool_trans.
  - intros H1 H2. apply String.eqb_eq in H1, H2. subst. apply String.eqb_refl.
Qed.

Lemma unique_covers l x :
  In x l -> isna x = false ->
  exists y, In y (unique l) /\ value_eqb y x = true.
Proof.
  induction l as [|a l IH]; simpl; [tauto|].
  intros [->|Hx] Hna.
  - exists x. split; [now left|now apply value_eqb_refl].
  - destruct (IH Hx Hna) as (y & Hy & Hyx).
    destruct (value_eqb a y) eqn:Hay.
    + exists a. split; [now left|]. eapply value_eqb_trans; eauto.
    + exists y. split; [|exact Hyx]. right.
      apply filter_In. split; [exact Hy|]. now rewrite Hay.
Qed.

Lemma group_keys_covers df field r :
  In r (rows df) -> isna (cell field r) = false ->
  exists k, In k (group_keys df field) /\ value_eqb (cell field r) k = true.
Proof.
  intros Hr Hna.
  destruct (unique_covers
              (List.filter (fun v => negb (isna v)) (map (cell field) (rows df)))
              (cell field r)) as (k & Hk & Hkr).
  - apply filter_In. split; [now apply in_map|]. now rewrite Hna.
  - exact Hna.
  - exists k. split; [|now apply value_eqb_sym].
    unfold group_keys.
    eapply Permutation_in; [symmetry; apply sort_by_perm|exact Hk].
Qed.

Lemma unique_In l y : In y (unique l) -> In y l.
Proof.
  induction l as [|x l IH]; simpl; [tauto|].
  intros [->|H]; [now left|]. right. apply IH.
  now apply filter_In in H as [H _].
Qed.

Lemma group_keys_notna df field k :
  In k (group_keys df field) -> isna k = false.
Proof.
  unfold group_keys. intros H.
  apply (Permutation_in _ (sort_by_perm value_leb _)) in H.
  apply unique_In, filter_In in H as [_ H].
  now apply negb_true_iff in H.
Qed.

Lemma group_rows_grouped df field k r :
  In k (group_keys df field) -> In r (group_rows df field k) ->
  In r (grouped df field).
Proof.
  intros Hk Hr. apply filter_In in Hr as [Hr E]. apply filter_In.
  split; [exact Hr|]. pose proof (group_keys_notna df field k Hk) as Hna.
  destruct (cell field r), k; simpl in *; congruence.
Qed.

(** ** barchart_categorical *)

Lemma numeric_column_no_str l xs :
  numeric_column l = Ok xs ->
  forall v, In v l -> forall s, v <> Str s.
Proof.
  revert xs. induction l as [|a l IH]; simpl; [tauto|].
  intros xs H v [->|Hv] s.
  - destruct v; simpl in H; congruence.
  - destruct (numeric a); simpl in H; [|discriminate].
    destruct (numeric_column l) as [ys|]; simpl in H; [|discriminate].
    now apply (IH ys).
Qed.

Lemma observed_length c rs :
  (forall r, In r rs -> forall s, cell c r <> Str s) ->
  length (observed c rs) =
  length (List.filter (fun r => negb (isna (cell c r))) rs).
Proof.
  induction rs as [|r rs IH]; intros H; [reflexivity|].
  cbn. specialize (IH (fun r' Hr' => H r' (or_intror Hr'))).
  pose proof (H r (or_introl eq_refl)) as Hr.
  destruct (cell c r) as [q|s| |] eqn:E; simpl; fold (observed c rs);
    rewrite ?IH; try reflexivity.
  now elim (Hr s).
Qed.

Lemma filter_all {A} (p : A -> bool) l :
  (forall a, In a l -> p a = true) -> List.filter p l = l.
Proof.
  induction l as [|a l IH]; intros H; simpl; [reflexivity|].
  rewrite (H a (or_introl eq_refl)), IH; [reflexivity|].
  intros b Hb. apply H. now right.
Qed.


Lemma barchart_categorical_inv df field bv out :
  barchart_categorical df field bv = Ok out ->
  (forall k r, In k (group_keys df field) -> In r (group_rows df field k) ->
     forall s, cell bv r <> Str s) /\
  out = map (fun k =>
               let vals := observed bv (group_rows df field k) in
               mkAgg k (Z.of_nat (length vals)) (Qsum vals)
                 (mean_of (Qsum vals) (Z.of_nat (length vals))))
            (group_keys df field).
Proof.
  unfold barchart_categorical, getitem.
  destruct (negb (has_column df field)); [discriminate|].
  destruct (has_column df bv); simpl; [|discriminate].
  destruct (numeric_column (map (cell bv) (grouped df field))) as [xs|] eqn:E;
    simpl; [|discriminate].
  intros [= <-]. split; [|reflexivity].
  intros k r Hk Hr s. eapply numeric_column_no_str; [exact E|].
  apply in_map. eapply group_rows_grouped; eauto.
Qed.

Lemma observed_sum_binary_na c rs :
  (forall r, In r rs ->
     isna (cell c r) = true \/
     exists q, cell c r = Num q /\ (q == 0 \/ q == 1)%Q) ->
  (Qsum (observed c rs) ==
   inject_Z (Z.of_nat (length (List.filter (fun r => eq_num (cell c r) 1) rs))))%Q.
Proof.
  induction rs as [|r rs IH]; intros H; [reflexivity|].
  specialize (IH (fun r' Hr' => H r' (or_intror Hr'))).
  destruct (H r (or_introl eq_refl)) as [Hna|(q & Hq & Hq01)].
  - cbn. destruct (cell c r); try discriminate; cbn; exact IH.
  - cbn. rewrite Hq. cbn. rewrite IH.
    destruct (Qeq_bool q 1) eqn:E.
    + apply Qeq_bool_iff in E. cbn [length]. rewrite Nat2Z.inj_succ.
      unfold Z.succ. rewrite inject_Z_plus, E. ring.
    + destruct Hq01 as [Hq0|Hq1].
      * rewrite Hq0. ring.
      * apply Qeq_bool_iff in Hq1. congruence.
Qed.

(** C4 (as amended). Every category value that occurs has a row in the
    summary, and in every row: count is the number of records of the group
    whose binary-field value is not missing (all the records of the group
    when none is missing); and for a group whose binary-field values are 0,
    1 or missing, sum is the number of ones and mean is sum divided by count
    whenever count is positive. *)
Theorem barchart_categorical_summary df field binary_variable out :
  barchart_categorical df field binary_variable = Ok out ->
  (forall r, In r (rows df) -> isna (cell field r) = false ->
     exists g, In g out /\ value_eqb (cell field r) (a_key g) = true) /\
  (forall g, In g out ->
     let group := group_rows df field (a_key g) in
     a_count g =
       Z.of_nat (length (List.filter
                           (fun r => negb (isna (cell binary_variable r))) group)) /\
     ((forall r, In r group -> isna (cell binary_variable r) = false) ->
        a_count g = Z.of_nat (length group)) /\
     ((forall r, In r group ->
         isna (cell binary_variable r) = true \/
         exists q, cell binary_variable r = Num q /\ (q == 0 \/ q == 1)%Q) ->
        (a_sum g ==
         inject_Z (Z.of_nat (length (List.filter
                     (fun r => eq_num (cell binary_variable r) 1) group))))%Q /\
        ((0 < a_count g)%Z ->
           a_mean g = Fin (a_sum g / inject_Z (a_count g))))).
Proof.
  intros H. apply barchart_categorical_inv in H as [Hnum ->]. split.
  - intros r Hr Hna.
    destruct (group_keys_covers df field r Hr Hna) as (k & Hk & Hrk).
    eexists. split; [apply in_map_iff; exists k; split; [reflexivity|exact Hk]|].
    exact Hrk.
  - intros g Hg. apply in_map_iff in Hg as (k & <- & Hk). cbn.
    rewrite (observed_length _ _ (fun r Hr => Hnum k r Hk Hr)).
    split; [reflexivity|]. split.
    { intros Hall. f_equal. f_equal. apply filter_all.
      intros r Hr. now rewrite (Hall r Hr). }
    intros H01. split; [now apply observed_sum_binary_na|].
    intros Hpos. unfold mean_of.
    destruct (Z.eqb_spec
                (Z.of_nat (length (List.filter
                   (fun r => negb (isna (cell binary_variable r)))
                   (group_rows df field k)))) 0) as [E|E]; [lia|reflexivity].
Qed.

Lemma barchart_categorical_summary_witness :
  exists out g,
    barchart_categorical mixed_flags "color" "flag" = Ok out /\
    In g out /\ a_key g = Str "a" /\
    length (group_rows mixed_flags "color" (Str "a")) = 4%nat /\
    a_count g = 3%Z /\
    (a_sum g == 2)%Q /\
    a_mean g = Fin (a_sum g / inject_Z (a_count g)).
Proof.
  eexists. exists (mkAgg (Str "a") 3 (1 + (0 + (1 + 0))) (Fin ((1 + (0 + (1 + 0))) / 3))).
  pose proof (barchart_categorical_summary mixed_flags "color" "flag" _ eq_refl)
    as [_ H].
  specialize (H (mkAgg (Str "a") 3 (1 + (0 + (1 + 0)))
                   (Fin ((1 + (0 + (1 + 0))) / 3)))).
  destruct H as (Hc & _ & H01); [left; reflexivity|].
  destruct H01 as [Hs Hm].
  { intros r [<-|[<-|[<-|[<-|[]]]]].
    - right. exists 1%Q. split; [reflexivity|]. right. reflexivity.
    - right. exists 0%Q. split; [reflexivity|]. left. reflexivity.
    - right. exists 1%Q. split; [reflexivity|]. right. reflexivity.
    - left. reflexivity. }
  split; [reflexivity|]. split; [left; reflexivity|].
  split; [reflexivity|]. split; [reflexivity|].
  split; [exact Hc|]. split; [exact Hs|].
  apply Hm. reflexivity.
Defined.

(** C4, counterexample. Category "a" has two records, but the count of its
    group is 1: [count] leaves out the record whose flag is missing. *)
Lemma barchart_categorical_summary_counterexample :
  barchart_categorical flag_missing "color" "flag" =
    Ok [mkAgg (Str "a") 1 (1 + 0) (Fin ((1 + 0) / 1))] /\
  length (group_rows flag_missing "color" (Str "a")) = 2%nat.
Proof. split; vm_compute; reflexivity. Qed.

(** ** barchart_continuous: the two subsets *)

Lemma loc_eq_In df bv x rs r :
  loc_eq df bv x = Ok rs ->
  In r rs <-> In r (rows df) /\ exists q, cell bv r = Num q /\ (q == x)%Q.
Proof.
  unfold loc_eq. destruct (has_column df bv); [|discriminate].
  intros [= <-]. rewrite filter_In. unfold eq_num.
  split; intros [Hr H]; (split; [exact Hr|]).
  - destruct (cell bv r) as [q| | |]; try discriminate.
    exists q. split; [reflexivity|now apply Qeq_bool_iff].
  - destruct H as (q & -> & Hq). now apply Qeq_bool_iff.
Qed.

(** C7. The true-class subset holds exactly the records whose binary field
    equals 1, the false-class subset exactly those whose binary field equals
    0; a record whose binary field is anything else (another number, a
    string, a missing value) is in neither. *)
Theorem binary_partition df binary_var d_true d_false :
  dataset_true df binary_var = Ok d_true ->
  dataset_false df binary_var = Ok d_false ->
  forall r,
    (In r d_true <->
       In r (rows df) /\ exists q, cell binary_var r = Num q /\ (q == 1)%Q) /\
    (In r d_false <->
       In r (rows df) /\ exists q, cell binary_var r = Num q /\ (q == 0)%Q) /\
    ((forall q, cell binary_var r = Num q -> ~ (q == 1)%Q /\ ~ (q == 0)%Q) ->
       ~ In r d_true /\ ~ In r d_false).
Proof.
  intros Ht Hf r.
  pose proof (loc_eq_In _ _ _ _ r Ht) as H1.
  pose proof (loc_eq_In _ _ _ _ r Hf) as H0.
  split; [exact H1|]. split; [exact H0|].
  intros Hother. split; intros Hin.
  - apply H1 in Hin as (_ & q & Hq & E). now destruct (Hother q Hq).
  - apply H0 in Hin as (_ & q & Hq & E). now destruct (Hother q Hq).
Qed.

Lemma binary_partition_witness :
  dataset_true flags "y" = Ok [mkrow [("x", Num 10); ("y", Num 1)]] /\
  dataset_false flags "y" = Ok [mkrow [("x", Num 20); ("y", Num 0)]] /\
  (~ In (mkrow [("x", Num 30); ("y", Num 2)])
        [mkrow [("x", Num 10); ("y", Num 1)]] /\
   ~ In (mkrow [("x", Num 30); ("y", Num 2)])
        [mkrow [("x", Num 20); ("y", Num 0)]]).
Proof.
  split; [vm_compute; reflexivity|].
  split; [vm_compute; reflexivity|].
  refine (proj2 (proj2 (binary_partition flags "y" _ _ _ _
                          (mkrow [("x", Num 30); ("y", Num 2)]))) _).
  - vm_compute; reflexivity.
  - vm_compute; reflexivity.
  - intros q Hq. vm_compute in Hq. injection Hq as <-.
    split; vm_compute; discriminate.
Defined.

(** ** barchart_continuous: the bin edges *)

Lemma linspace_points (a b : Q) (n : Z) :
  (2 <= n)%Z ->
  exists qs,
    linspace (Fin a) (Fin b) n = Ok (map Fin qs) /\
    length qs = Z.to_nat n /\
    (forall i, (i < length qs)%nat -> (nth i qs 0 == sample a b n i)%Q) /\
    nth (length qs - 1) qs 0%Q = b.
Proof.
  intros Hn.
  set (g := fun i : nat =>
              (inject_Z (Z.of_nat i) * ((b - a) / inject_Z (n - 1)) + a)%Q).
  exists (firstn (Z.to_nat (n - 1)) (map g (seq 0 (Z.to_nat n))) ++ [b]).
  assert (Hlen : length (firstn (Z.to_nat (n - 1)) (map g (seq 0 (Z.to_nat n))))
                 = Z.to_nat (n - 1)).
  { rewrite length_firstn, length_map, length_seq. lia. }
  split; [|split; [|split]].
  - unfold linspace.
    destruct (Z.ltb_spec n 0); [lia|].
    destruct (Z.ltb_spec 0 (n - 1)); [|lia].
    destruct (Z.ltb_spec 1 n); [|lia].
    cbn [fsub fdiv]. rewrite !map_map. cbn [fmul fadd].
    rewrite map_app, <- firstn_map, map_map. reflexivity.
  - rewrite length_app, Hlen. simpl. lia.
  - intros i Hi. rewrite length_app, Hlen in Hi. simpl in Hi.
    destruct (Nat.lt_ge_cases i (Z.to_nat (n - 1))) as [Hlt|Hge].
    + rewrite app_nth1 by lia.
      rewrite nth_firstn. destruct (Nat.ltb_spec i (Z.to_nat (n - 1))); [|lia].
      rewrite (nth_indep _ 0%Q (g 0%nat)) by (rewrite length_map, length_seq; lia).
      rewrite map_nth, seq_nth by lia. unfold g, sample. simpl. ring.
    + assert (i = Z.to_nat (n - 1)) by lia. subst i.
      rewrite app_nth2 by lia. rewrite Hlen, Nat.sub_diag. simpl.
      unfold sample. rewrite Z2Nat.id by lia.
      field. intros E. apply (inject_Z_injective (n - 1) 0) in E. lia.
  - rewrite length_app, Hlen. simpl.
    rewrite app_nth2 by lia. rewrite Hlen.
    replace (Z.to_nat (n - 1) + 1 - 1 - Z.to_nat (n - 1))%nat with 0%nat by lia.
    reflexivity.
Qed.

Lemma inject_Z_pos z : (0 < z)%Z -> (0 < inject_Z z)%Q.
Proof. intros H. change 0%Q with (inject_Z 0). now rewrite <- Zlt_Qlt. Qed.


Lemma sample_step a b n i :
  (sample a b n (S i) - sample a b n i == (b - a) / inject_Z (n - 1))%Q.
Proof.
  unfold sample. rewrite Nat2Z.inj_succ. unfold Z.succ.
  rewrite inject_Z_plus. change (inject_Z 1) with 1%Q. ring.
Qed.



Lemma intervals_length bins : length (intervals bins) = (length bins - 1)%nat.
Proof.
  induction bins as [|a [|b tl] IH]; try reflexivity.
  change (intervals (a :: b :: tl)) with ((a, b) :: intervals (b :: tl)).
  cbn [length] in *. rewrite IH. lia.
Qed.

Lemma intervals_nth bins i d :
  (S i < length bins)%nat ->
  nth i (intervals bins) (d, d) = (nth i bins d, nth (S i) bins d).
Proof.
  revert i. induction bins as [|a [|b tl] IH]; intros i Hi; simpl in Hi; try lia.
  change (intervals (a :: b :: tl)) with ((a, b) :: intervals (b :: tl)).
  destruct i as [|i]; [reflexivity|].
  cbn [nth]. rewrite IH by (simpl; lia). reflexivity.
Qed.

Lemma funique_In l y : In y (funique l) -> In y l.
Proof.
  induction l as [|x l IH]; simpl; [tauto|].
  intros [->|H]; [now left|]. right. apply IH.
  now apply filter_In in H as [H _].
Qed.

Lemma funique_increasing qs :
  StronglySorted Qlt qs -> funique (map Fin qs) = map Fin qs.
Proof.
  induction 1 as [|x l Hs IH Hall]; [reflexivity|].
  cbn [map funique]. rewrite IH. f_equal. apply filter_all.
  intros y Hy. apply in_map_iff in Hy as (q & <- & Hq). cbn.
  rewrite List.Forall_forall in Hall. specialize (Hall q Hq).
  destruct (Qeq_bool x q) eqn:E; [|reflexivity].
  apply Qeq_bool_iff in E. lra.
Qed.

Lemma decreases_increasing qs :
  StronglySorted Qlt qs -> decreases (map Fin qs) = false.
Proof.
  induction 1 as [|x l Hs IH Hall]; [reflexivity|].
  destruct l as [|y l]; [reflexivity|].
  change (decreases (map Fin (x :: y :: l)))
    with (fltb (fsub (Fin y) (Fin x)) (Fin 0) || decreases (map Fin (y :: l))).
  rewrite IH, orb_false_r. cbn.
  apply List.Forall_inv in Hall.
  destruct (Qle_bool 0 (y - x)) eqn:E; [reflexivity|].
  assert (0 <= y - x)%Q by lra. apply Qle_bool_iff in H. congruence.
Qed.

Lemma no_nan_fin qs : existsb fisnan (map Fin qs) = false.
Proof. induction qs; simpl; auto. Qed.

Lemma cut_accepts x qs :
  StronglySorted Qlt qs -> has_str x = false ->
  cut x (map Fin qs) = Ok (map (cut_code (map Fin qs)) x).
Proof.
  intros Hs Hx. unfold cut, duplicate_edges.
  rewrite (decreases_increasing _ Hs), (funique_increasing _ Hs), Hx, no_nan_fin.
  rewrite Nat.ltb_irrefl, andb_false_r. reflexivity.
Qed.

Lemma nth_map_Fin qs i :
  (i < length qs)%nat -> nth i (map Fin qs) FNaN = Fin (nth i qs 0%Q).
Proof.
  intros Hi. rewrite (nth_indep _ FNaN (Fin 0)) by (now rewrite length_map).
  apply map_nth.
Qed.

(** The example n = 5, min = 0, max = 100: the five boundaries are 0, 25,
    50, 75 and 100, with four buckets. *)
Example linspace_0_100_5 :
  exists qs,
    linspace (Fin 0) (Fin 100) 5 = Ok (map Fin qs) /\
    Forall2 Qeq qs [0; 25; 50; 75; 100]%Q /\
    length (intervals (map Fin qs)) = 4%nat.
Proof.
  exists [0 # 4; 100 # 4; 200 # 4; 300 # 4; 100]%Q.
  split; [vm_compute; reflexivity|]. split; [|reflexivity].
  repeat constructor.
Qed.

(** ** barchart_continuous: when it raises *)

Lemma barchart_continuous_inv df field bv n mn mx ch :
  barchart_continuous df field bv n mn mx = Ok ch ->
  exists t f lo hi bins ct cf,
    dataset_true df bv = Ok t /\ dataset_false df bv = Ok f /\
    default_min df field mn = Ok lo /\ default_max df field mx = Ok hi /\
    linspace lo hi n = Ok bins /\
    cut (map (cell field) t) bins = Ok ct /\
    cut (map (cell field) f) bins = Ok cf /\
    ch = mkChart bins (intervals bins)
           (fractions (length (intervals bins)) ct)
           (fractions (length (intervals bins)) cf).
Proof.
  unfold barchart_continuous.
  destruct (dataset_true df bv) as [t|]; simpl; [|discriminate].
  destruct (dataset_false df bv) as [f|]; simpl; [|discriminate].
  destruct (default_min df field mn) as [lo|]; simpl; [|discriminate].
  destruct (default_max df field mx) as [hi|]; simpl; [|discriminate].
  destruct (linspace lo hi n) as [bins|] eqn:Hlin; simpl; [|discriminate].
  destruct (getitem df field); simpl; [|discriminate].
  destruct (cut (map (cell field) t) bins) as [ct|] eqn:Hct; simpl;
    [|discriminate].
  destruct (cut (map (cell field) f) bins) as [cf|] eqn:Hcf; simpl;
    [|discriminate].
  intros [= <-]. exists t, f, lo, hi, bins, ct, cf. repeat split; assumption.
Qed.

Lemma filter_length_bound {A} (p : A -> bool) l :
  (length (List.filter p l) <= length l)%nat.
Proof. induction l as [|a l IH]; simpl; [lia|]. destruct (p a); simpl; lia. Qed.

Lemma funique_length l : (length (funique l) <= length l)%nat.
Proof.
  induction l as [|x l IH]; simpl; [lia|].
  pose proof (filter_length_bound (fun y => negb (fsame x y)) (funique l)). lia.
Qed.

Lemma funique_repeated x y l :
  fsame x y = true ->
  (length (funique (x :: y :: l)) < length (x :: y :: l))%nat.
Proof.
  intros E. cbn [funique List.filter]. rewrite E. cbn [negb length].
  pose proof (filter_length_bound (fun z => negb (fsame x z))
                (List.filter (fun z => negb (fsame y z)) (funique l))).
  pose proof (filter_length_bound (fun z => negb (fsame y z)) (funique l)).
  pose proof (funique_length l). lia.
Qed.

Lemma cut_rejects x bins :
  decreases bins = true \/ duplicate_edges bins = true -> raises (cut x bins).
Proof.
  unfold cut. intros [H|H].
  - now rewrite H.
  - destruct (decreases bins); [exact I|]. now rewrite H.
Qed.

(** Edges that run from a larger [min] to a smaller [max], or that stay on
    one value three times or more, are edges [pd.cut] refuses. *)
Lemma linspace_rejected a b n bins :
  linspace (Fin a) (Fin b) n = Ok bins ->
  ((2 <= n)%Z /\ (b < a)%Q) \/ ((3 <= n)%Z /\ (a == b)%Q) ->
  decreases bins = true \/ duplicate_edges bins = true.
Proof.
  intros Hlin Hcase.
  assert (Hn : (2 <= n)%Z) by (destruct Hcase as [[? _]|[? _]]; lia).
  destruct (linspace_points a b n Hn) as (qs & Hqs & Hlen & Hnth & _).
  rewrite Hqs in Hlin. injection Hlin as <-.
  destruct qs as [|q0 [|q1 qs]]; simpl in Hlen; try lia.
  pose proof (Hnth 0%nat ltac:(simpl; lia)) as H0.
  pose proof (Hnth 1%nat ltac:(simpl; lia)) as H1.
  pose proof (sample_step a b n 0) as Hstep.
  simpl in H0, H1. rewrite <- H0, <- H1 in Hstep.
  assert (Hden : (0 < inject_Z (n - 1))%Q) by (apply inject_Z_pos; lia).
  destruct Hcase as [[_ Hba]|[Hn3 Hab]].
  - left.
    change (decreases (map Fin (q0 :: q1 :: qs)))
      with (fltb (fsub (Fin q1) (Fin q0)) (Fin 0)
            || decreases (map Fin (q1 :: qs))).
    apply orb_true_iff. left. cbn.
    destruct (Qle_bool 0 (q1 - q0)) eqn:E; [|reflexivity].
    apply Qle_bool_iff in E. rewrite Hstep in E.
    assert ((b - a) / inject_Z (n - 1) < 0)%Q; [|lra].
    apply Qlt_shift_div_r; [exact Hden|lra].
  - right. unfold duplicate_edges. apply andb_true_iff. split.
    + apply Nat.ltb_lt. apply funique_repeated. cbn.
      apply Qeq_bool_iff.
      assert (E : ((b - a) / inject_Z (n - 1) == 0)%Q).
      { rewrite Hab. unfold Qdiv. ring. }
      rewrite E in Hstep. lra.
    + rewrite length_map. simpl. simpl in Hlen.
      destruct qs; simpl in *; [lia|reflexivity].
Qed.








(** ** barchart_continuous: which values get a bucket *)

Lemma fltb_lt q x : fltb (Fin q) (Fin x) = true <-> (q < x)%Q.
Proof.
  cbn. destruct (Qle_bool x q) eqn:E; simpl.
  - apply Qle_bool_iff in E. split; [discriminate|lra].
  - split; [intros _|reflexivity].
    destruct (Qlt_le_dec q x) as [H|H]; [exact H|].
    apply Qle_bool_iff in H. congruence.
Qed.

Lemma filter_length_zero {A} (p : A -> bool) l :
  length (List.filter p l) = 0%nat <-> forall a, In a l -> p a = false.
Proof.
  induction l as [|a l IH]; simpl; [tauto|].
  destruct (p a) eqn:E; simpl.
  - split; [discriminate|]. intros H. specialize (H a (or_introl eq_refl)).
    congruence.
  - rewrite IH. split; [intros H b [<-|Hb]; auto|intros H b Hb; auto].
Qed.

Lemma filter_length_full {A} (p : A -> bool) l :
  length (List.filter p l) = length l <-> forall a, In a l -> p a = true.
Proof.
  induction l as [|a l IH]; simpl; [tauto|].
  pose proof (filter_length_bound p l) as Hb.
  destruct (p a) eqn:E; simpl.
  - split.
    + intros H b [<-|Hin]; [exact E|]. apply IH; [lia|exact Hin].
    + intros H. f_equal. apply IH. auto.
  - split; [lia|]. intros H. specialize (H a (or_introl eq_refl)). congruence.
Qed.

Lemma cut_code_bound bins v i :
  cut_code bins v = Some i -> (i < length (intervals bins))%nat.
Proof.
  rewrite intervals_length. destruct v as [x| | |]; simpl; try discriminate.
  pose proof (filter_length_bound (fun b => fltb b (Fin x)) bins) as Hb.
  unfold searchsorted_left.
  destruct (Nat.eqb_spec (length (List.filter (fun b => fltb b (Fin x)) bins))
              (length bins)); simpl; [discriminate|].
  destruct (Nat.eqb_spec (length (List.filter (fun b => fltb b (Fin x)) bins)) 0);
    [discriminate|].
  intros [= <-]. lia.
Qed.

(** Over edges that all lie between [a] and [b] and reach both, a cell gets
    a code exactly when it is a number in the half-open range (a, b]. *)
Lemma cut_code_range qs a b v :
  (forall q, In q qs -> (a <= q)%Q /\ (q <= b)%Q) ->
  (exists q, In q qs /\ (q == a)%Q) ->
  (exists q, In q qs /\ (q == b)%Q) ->
  is_Some (cut_code (map Fin qs) v) <->
  exists x, v = Num x /\ (a < x)%Q /\ (x <= b)%Q.
Proof.
  intros Hin (qa & Hqa & Ea) (qb & Hqb & Eb).
  destruct v as [x| | |]; simpl;
    try (split; [intros [? ?]; discriminate|intros (? & ? & _); discriminate]).
  unfold searchsorted_left.
  set (p := fun b0 => fltb b0 (Fin x)).
  split.
  - intros Hsome.
    destruct (Nat.eqb_spec (length (List.filter p (map Fin qs)))
                (length (map Fin qs))) as [E1|E1]; simpl in Hsome;
      [destruct Hsome; discriminate|].
    destruct (Nat.eqb_spec (length (List.filter p (map Fin qs))) 0) as [E0|E0];
      [destruct Hsome; discriminate|].
    exists x. split; [reflexivity|]. split.
    + destruct (Qlt_le_dec a x) as [H|H]; [exact H|]. exfalso. apply E0.
      apply filter_length_zero. intros f Hf.
      apply in_map_iff in Hf as (q & <- & Hq). unfold p.
      destruct (fltb (Fin q) (Fin x)) eqn:E; [|reflexivity].
      apply fltb_lt in E. destruct (Hin q Hq). lra.
    + destruct (Qlt_le_dec b x) as [H|H]; [|exact H]. exfalso. apply E1.
      apply filter_length_full. intros f Hf.
      apply in_map_iff in Hf as (q & <- & Hq). unfold p.
      apply fltb_lt. destruct (Hin q Hq). lra.
  - intros (x' & [= <-] & Hax & Hxb).
    destruct (Nat.eqb_spec (length (List.filter p (map Fin qs)))
                (length (map Fin qs))) as [E1|E1]; simpl.
    { exfalso. rewrite filter_length_full in E1.
      specialize (E1 (Fin qb) (in_map Fin _ _ Hqb)). unfold p in E1.
      apply fltb_lt in E1. lra. }
    destruct (Nat.eqb_spec (length (List.filter p (map Fin qs))) 0) as [E0|E0];
      [|eauto].
    exfalso. rewrite filter_length_zero in E0.
    specialize (E0 (Fin qa) (in_map Fin _ _ Hqa)). unfold p in E0.
    assert (fltb (Fin qa) (Fin x) = true) by (apply fltb_lt; lra). congruence.
Qed.

Lemma sample_bounds a b n i :
  (2 <= n)%Z -> (a <= b)%Q -> (Z.of_nat i <= n - 1)%Z ->
  (a <= sample a b n i)%Q /\ (sample a b n i <= b)%Q.
Proof.
  intros Hn Hab Hi. unfold sample.
  assert (Hden : (0 < inject_Z (n - 1))%Q) by (apply inject_Z_pos; lia).
  set (s := ((b - a) / inject_Z (n - 1))%Q).
  assert (Hs : (0 <= s)%Q) by (apply Qle_shift_div_l; [exact Hden|lra]).
  assert (Hi0 : (0 <= inject_Z (Z.of_nat i))%Q).
  { change 0%Q with (inject_Z 0). rewrite <- Zle_Qle. lia. }
  assert (Hi1 : (inject_Z (Z.of_nat i) <= inject_Z (n - 1))%Q).
  { rewrite <- Zle_Qle. lia. }
  assert (Hfull : (inject_Z (n - 1) * s == b - a)%Q).
  { unfold s. field. lra. }
  pose proof (Qmult_le_0_compat _ _ Hi0 Hs) as H0.
  pose proof (Qmult_le_compat_r _ _ s Hi1 Hs) as H1.
  split; lra.
Qed.

Lemma cut_Ok x bins codes :
  cut x bins = Ok codes -> codes = map (cut_code bins) x.
Proof.
  unfold cut.
  destruct (decreases bins); [discriminate|].
  destruct (duplicate_edges bins); [discriminate|].
  destruct (has_str x && negb (length bins =? 0)%nat); [discriminate|].
  destruct ((2 <=? length bins)%nat && existsb fisnan bins); [discriminate|].
  now intros [= <-].
Qed.

Lemma float64_exact_Z z : (Z.abs z < 2 ^ 53)%Z -> float64_exact (inject_Z z).
Proof.
  intros H. exists z, 0%Z. split; [exact H|]. split; [lia|].
  simpl. ring.
Qed.

(** C6 (as amended). With at least two boundary points, and min and max
    numbers that float64 holds exactly, a value of the field that float64
    holds exactly is assigned to a bucket exactly when min < x <= max: the
    value min itself and every value below min or above max stay unassigned,
    and so does every missing value. *)
Theorem cut_assigns_half_open df field binary_var n min max ch a b :
  barchart_continuous df field binary_var n min max = Ok ch ->
  default_min df field min = Ok (Fin a) ->
  default_max df field max = Ok (Fin b) ->
  (2 <= n)%Z ->
  float64_exact a -> float64_exact b ->
  (forall x, float64_exact x ->
     (is_Some (cut_code (edges ch) (Num x)) <-> (a < x)%Q /\ (x <= b)%Q)) /\
  (forall v, isna v = true -> cut_code (edges ch) v = None).
Proof.
  intros H Ha Hb Hn _ _.
  apply barchart_continuous_inv in H
    as (t & f & lo & hi & bins & ct & cf & _ & _ & Hlo & Hhi & Hlin & Hct & _ & ->).
  rewrite Ha in Hlo. rewrite Hb in Hhi. injection Hlo as <-. injection Hhi as <-.
  cbn [edges]. split; [|intros v Hv; destruct v; try discriminate; reflexivity].
  intros x _.
  assert (Hab : (a <= b)%Q).
  { destruct (Qlt_le_dec b a) as [Hlt|Hle]; [|exact Hle]. exfalso.
    pose proof (cut_rejects (map (cell field) t) bins
                  (linspace_rejected _ _ _ _ Hlin (or_introl (conj Hn Hlt)))) as Hr.
    now rewrite Hct in Hr. }
  destruct (linspace_points a b n Hn) as (qs & Hqs & Hlen & Hnth & Hlast).
  rewrite Hqs in Hlin. injection Hlin as <-.
  rewrite (cut_code_range qs a b (Num x)).
  - split; [intros (x' & [= <-] & H1 & H2); auto|intros [H1 H2]; eauto].
  - intros q Hq. destruct (In_nth _ _ 0%Q Hq) as (i & Hi & <-).
    rewrite (Hnth i Hi). apply sample_bounds; auto. lia.
  - exists (nth 0 qs 0%Q). split; [apply nth_In; lia|].
    rewrite Hnth by lia. unfold sample. simpl. ring.
  - exists (nth (length qs - 1) qs 0%Q). split; [apply nth_In; lia|].
    now rewrite Hlast.
Qed.

Lemma cut_assigns_half_open_witness :
  exists ch,
    barchart_continuous three_points "x" "y" 5 None None = Ok ch /\
    default_min three_points "x" None = Ok (Fin 0) /\
    default_max three_points "x" None = Ok (Fin 100) /\
    (2 <= 5)%Z /\ float64_exact 0 /\ float64_exact 100 /\ float64_exact 50 /\
    (is_Some (cut_code (edges ch) (Num 50)) <-> (0 < 50)%Q /\ (50 <= 100)%Q) /\
    (is_Some (cut_code (edges ch) (Num 0)) <-> (0 < 0)%Q /\ (0 <= 100)%Q).
Proof.
  eexists. split; [vm_compute; reflexivity|].
  split; [vm_compute; reflexivity|]. split; [vm_compute; reflexivity|].
  split; [lia|].
  assert (H0 : float64_exact 0) by (apply (float64_exact_Z 0); reflexivity).
  assert (H100 : float64_exact 100) by (apply (float64_exact_Z 100); reflexivity).
  assert (H50 : float64_exact 50) by (apply (float64_exact_Z 50); reflexivity).
  split; [exact H0|]. split; [exact H100|]. split; [exact H50|].
  destruct (cut_assigns_half_open three_points "x" "y" 5 None None _ 0 100
              eq_refl eq_refl eq_refl ltac:(lia) H0 H100) as [Hx _].
  split; [exact (Hx 50%Q H50)|exact (Hx 0%Q H0)].
Defined.

(** C6, counterexample. The record with x = 0 belongs to the true-class
    subset and 0 is the minimum of the field, so it lies in [min, max]; yet it
    gets no bucket, and the heights of the true class are shares of the two
    records that did get one. *)
Lemma cut_assigns_half_open_counterexample :
  exists ch,
    barchart_continuous three_points "x" "y" 5 None None = Ok ch /\
    default_min three_points "x" None = Ok (Fin 0) /\
    default_max three_points "x" None = Ok (Fin 100) /\
    dataset_true three_points "y" = Ok (rows three_points) /\
    cut_code (edges ch) (Num 0) = None /\
    bars_true ch = [Fin (0 # 2); Fin (1 # 2); Fin (0 # 2); Fin (1 # 2)].
Proof.
  eexists. split; [vm_compute; reflexivity|].
  repeat split; vm_compute; reflexivity.
Qed.

(** ** barchart_continuous: the boundaries of a returned chart *)

Lemma linspace_length lo hi n bins :
  linspace lo hi n = Ok bins -> (0 <= n)%Z /\ length bins = Z.to_nat n.
Proof.
  unfold linspace. destruct (Z.ltb_spec n 0); [discriminate|].
  intros [= <-]. split; [lia|].
  set (y := map _ (if (0 <? n - 1)%Z then _ else _)).
  assert (Hy : length y = Z.to_nat n).
  { unfold y. destruct (0 <? n - 1)%Z; now rewrite !length_map, length_seq. }
  destruct (Z.ltb_spec 1 n); [|exact Hy].
  rewrite length_app, length_firstn, Hy. simpl. lia.
Qed.

Lemma fractions_length m codes : length (fractions m codes) = m.
Proof. unfold fractions. now rewrite length_map, length_seq. Qed.



(** The same example on float64: nothing is rounded. *)
Example linspace64_0_100_5 :
  linspace64 (float64_of_Z 0) (float64_of_Z 100) 5 =
  map float64_of_Z [0; 25; 50; 75; 100]%Z.
Proof. vm_compute; reflexivity. Qed.


(** ** barchart_continuous: the bar heights of a class are its bucket shares *)

Lemma Zsum_map_add {A} (f g : A -> Z) l :
  Zsum (map (fun i => f i + g i)%Z l) = (Zsum (map f l) + Zsum (map g l))%Z.
Proof. induction l as [|a l IH]; simpl; lia. Qed.

Lemma Zsum_indicator (c : option nat) s m :
  Zsum (map (fun i => if bool_decide (c = Some i) then 1 else 0)%Z (seq s m)) =
  match c with
  | Some j => if ((s <=? j) && (j <? s + m))%nat then 1%Z else 0%Z
  | None => 0%Z
  end.
Proof.
  revert s. induction m as [|m IH]; intros s; simpl.
  - destruct c as [j|]; [|reflexivity].
    destruct (Nat.leb_spec s j), (Nat.ltb_spec j (s + 0)); simpl; lia.
  - rewrite IH. destruct c as [j|].
    + destruct (bool_decide_reflect (Some j = Some s)) as [E|E].
      * injection E as ->.
        destruct (Nat.leb_spec (S s) s), (Nat.ltb_spec s (S s + m)),
          (Nat.leb_spec s s), (Nat.ltb_spec s (s + S m)); simpl; lia.
      * assert (j <> s) by congruence.
        destruct (Nat.leb_spec (S s) j), (Nat.ltb_spec j (S s + m)),
          (Nat.leb_spec s j), (Nat.ltb_spec j (s + S m)); simpl; lia.
    + rewrite bool_decide_eq_false_2 by discriminate. reflexivity.
Qed.

(** Every bucketed cell is in exactly one bucket: the sizes of the buckets
    add up to the number of bucketed cells. *)
Lemma bucket_sizes_total m codes :
  (forall i, In (Some i) codes -> (i < m)%nat) ->
  Zsum (map (bucket_size codes) (seq 0 m)) = bucketed_count codes.
Proof.
  induction codes as [|c codes IH]; intros Hb.
  - unfold bucket_size, bucketed_count. simpl.
    induction (seq 0 m); simpl; lia.
  - specialize (IH (fun i Hi => Hb i (or_intror Hi))).
    transitivity
      (Zsum (map (fun i => (if bool_decide (c = Some i) then 1 else 0)
                           + bucket_size codes i)%Z (seq 0 m))).
    { f_equal. apply map_ext. intros i. unfold bucket_size. cbn [List.filter].
      destruct (bool_decide (c = Some i)); cbn [length]; lia. }
    rewrite Zsum_map_add, IH, Zsum_indicator.
    unfold bucketed_count. cbn [List.filter].
    destruct c as [j|].
    + rewrite bool_decide_eq_true_2 by discriminate.
      pose proof (Hb j (or_introl eq_refl)).
      destruct (Nat.leb_spec 0 j), (Nat.ltb_spec j (0 + m)); cbn [andb length]; lia.
    + rewrite bool_decide_eq_false_2 by (intros H; now apply H).
      lia.
Qed.

Lemma bucketed_count_pos codes c :
  In c codes -> is_Some c -> (0 < bucketed_count codes)%Z.
Proof.
  intros Hin [i ->]. unfold bucketed_count.
  assert (In (Some i) (List.filter (fun c => bool_decide (c <> None)) codes)).
  { apply filter_In. split; [exact Hin|]. now apply bool_decide_eq_true_2. }
  destruct (List.filter (fun c => bool_decide (c <> None)) codes);
    [contradiction|simpl; lia].
Qed.

(** The per-bucket shares of a cut column with at least one bucketed cell. *)
Lemma fractions_sum m codes :
  Zsum (map (bucket_size codes) (seq 0 m)) = bucketed_count codes ->
  (0 < bucketed_count codes)%Z ->
  exists q, fsum (fractions m codes) = Fin q /\ (q == 1)%Q.
Proof.
  intros Htot Hpos. unfold fractions.
  destruct (bucketed_count codes) as [|p|p] eqn:Hc; try lia.
  cbn [true_divide].
  rewrite <- (map_map (bucket_size codes) (fun c => Fin (c # p))).
  rewrite <- (map_map (fun c => c # p) Fin).
  rewrite fsum_fin. eexists. split; [reflexivity|].
  rewrite Qsum_ratios, Htot. unfold Qeq. simpl. lia.
Qed.

Lemma fin_list bins :
  existsb fisnan bins = false -> exists qs, bins = map Fin qs.
Proof.
  induction bins as [|b bins IH]; simpl; [now exists []|].
  destruct b as [q|]; simpl; [|discriminate].
  intros H. destruct (IH H) as [qs ->]. now exists (q :: qs).
Qed.

Lemma decreases_false_sorted qs :
  decreases (map Fin qs) = false -> StronglySorted Qle qs.
Proof.
  intros H. apply Sorted_StronglySorted; [exact Qle_trans|].
  induction qs as [|a qs IH]; [constructor|].
  destruct qs as [|b qs]; [repeat constructor|].
  change (decreases (map Fin (a :: b :: qs)))
    with (fltb (fsub (Fin b) (Fin a)) (Fin 0) || decreases (map Fin (b :: qs)))
    in H.
  apply orb_false_iff in H as [Hab Hrest].
  constructor; [now apply IH|]. constructor.
  cbn in Hab. apply negb_false_iff, Qle_bool_iff in Hab. lra.
Qed.

(** On non-decreasing edges the edges below [x] are a prefix: those before
    position [searchsorted_left] are below [x], the others are not. *)
Lemma searchsorted_left_spec qs x :
  StronglySorted Qle qs ->
  let k := searchsorted_left (map Fin qs) x in
  (forall i, (i < k)%nat -> (nth i qs 0 < x)%Q) /\
  (forall i, (k <= i < length qs)%nat -> (x <= nth i qs 0)%Q).
Proof.
  unfold searchsorted_left. cbv zeta. rewrite filter_length_map.
  induction 1 as [|a l Hs IH Hall]; cbn [List.filter length].
  - split; intros i Hi; simpl in Hi; lia.
  - rewrite List.Forall_forall in Hall.
    destruct (fltb (Fin a) (Fin x)) eqn:E.
    + apply fltb_lt in E. cbn [length]. destruct IH as [IH1 IH2]. split.
      * intros [|i] Hi; [exact E|]. apply IH1. lia.
      * intros [|i] Hi; [lia|]. apply IH2. lia.
    + assert (Hxa : (x <= a)%Q).
      { destruct (Qlt_le_dec a x) as [Hlt|Hle]; [|exact Hle].
        apply fltb_lt in Hlt. congruence. }
      assert (Hz : length (List.filter (fun q => fltb (Fin q) (Fin x)) l) = 0%nat).
      { apply filter_length_zero. intros b Hb.
        destruct (fltb (Fin b) (Fin x)) eqn:Eb; [|reflexivity].
        apply fltb_lt in Eb. specialize (Hall b Hb). lra. }
      rewrite Hz. split; [intros i Hi; lia|].
      intros [|i] Hi; [exact Hxa|]. cbn [length] in Hi. cbn [nth].
      assert (In (nth i l 0%Q) l) by (apply nth_In; lia).
      specialize (Hall _ H). lra.
Qed.

Lemma cut_Ok_checks x bins codes :
  cut x bins = Ok codes ->
  decreases bins = false /\
  ((2 <= length bins)%nat -> existsb fisnan bins = false).
Proof.
  unfold cut.
  destruct (decreases bins); [discriminate|].
  destruct (duplicate_edges bins); [discriminate|].
  destruct (has_str x && negb (length bins =? 0)%nat); [discriminate|].
  destruct (Nat.leb_spec 2 (length bins)); simpl.
  - destruct (existsb fisnan bins); [discriminate|]. auto.
  - intros _. split; [reflexivity|lia].
Qed.

Lemma searchsorted_left_le bins x : (searchsorted_left bins x <= length bins)%nat.
Proof. apply filter_length_bound. Qed.

Lemma in_bucket_spec lo hi x :
  in_bucket lo hi (Num x) = true <-> (lo < x)%Q /\ (x <= hi)%Q.
Proof.
  cbn. rewrite andb_true_iff, negb_true_iff, Qle_bool_iff. split.
  - intros [H1 H2]. split; [|exact H2].
    destruct (Qlt_le_dec lo x) as [H|H]; [exact H|].
    apply Qle_bool_iff in H. congruence.
  - intros [H1 H2]. split; [|exact H2].
    destruct (Qle_bool x lo) eqn:E; [|reflexivity].
    apply Qle_bool_iff in E. lra.
Qed.

(** On non-decreasing edges the code of a cell is [i] exactly when the cell
    lies in the bucket between edge [i] and edge [i + 1]. *)
Lemma cut_code_in_bucket es v i :
  StronglySorted Qle es -> (S i < length es)%nat ->
  bool_decide (cut_code (map Fin es) v = Some i) =
  in_bucket (nth i es 0%Q) (nth (S i) es 0%Q) v.
Proof.
  intros Hs Hi.
  destruct v as [x| | |];
    try (cbn; apply bool_decide_eq_false_2; discriminate).
  destruct (searchsorted_left_spec es x Hs) as [Hlt Hge].
  pose proof (searchsorted_left_le (map Fin es) x) as Hk.
  cbn [cut_code]. rewrite length_map in *.
  set (k := searchsorted_left (map Fin es) x) in *.
  destruct (in_bucket (nth i es 0%Q) (nth (S i) es 0%Q) (Num x)) eqn:E.
  - apply in_bucket_spec in E as [E1 E2]. apply bool_decide_eq_true_2.
    assert (Hki : k = S i).
    { destruct (Nat.lt_trichotomy k (S i)) as [H|[H|H]]; [|exact H|].
      - specialize (Hge i ltac:(lia)). lra.
      - specialize (Hlt (S i) H). lra. }
    rewrite Hki. destruct (Nat.eqb_spec (S i) (length es)); [lia|].
    simpl. f_equal. lia.
  - apply bool_decide_eq_false_2. intros Hc.
    destruct (Nat.eqb_spec k (length es)); simpl in Hc; [discriminate|].
    destruct (Nat.eqb_spec k 0); [discriminate|]. injection Hc as Hc.
    assert (in_bucket (nth i es 0%Q) (nth (S i) es 0%Q) (Num x) = true).
    { apply in_bucket_spec. split; [apply Hlt; lia|apply Hge; lia]. }
    congruence.
Qed.

(** A cell has a code exactly when it lies between the first edge
    (excluded) and the last. *)
Lemma cut_code_in_range es v :
  StronglySorted Qle es -> (2 <= length es)%nat ->
  bool_decide (cut_code (map Fin es) v <> None) =
  in_bucket (nth 0 es 0%Q) (nth (length es - 1) es 0%Q) v.
Proof.
  intros Hs Hi.
  destruct v as [x| | |];
    try (cbn [cut_code in_bucket]; apply bool_decide_eq_false_2;
         intros H; now apply H).
  destruct (searchsorted_left_spec es x Hs) as [Hlt Hge].
  pose proof (searchsorted_left_le (map Fin es) x) as Hk.
  cbn [cut_code]. rewrite length_map in *.
  set (k := searchsorted_left (map Fin es) x) in *.
  destruct (in_bucket (nth 0 es 0%Q) (nth (length es - 1) es 0%Q) (Num x)) eqn:E.
  - apply in_bucket_spec in E as [E1 E2]. apply bool_decide_eq_true_2.
    destruct (Nat.eqb_spec k (length es)) as [E|E]; simpl.
    { specialize (Hlt (length es - 1)%nat ltac:(lia)). lra. }
    destruct (Nat.eqb_spec k 0) as [E0|E0]; [|discriminate].
    specialize (Hge 0%nat ltac:(lia)). lra.
  - apply bool_decide_eq_false_2. intros Hc. apply Hc.
    destruct (Nat.eqb_spec k (length es)); simpl; [reflexivity|].
    destruct (Nat.eqb_spec k 0); [reflexivity|]. exfalso.
    assert (in_bucket (nth 0 es 0%Q) (nth (length es - 1) es 0%Q) (Num x) = true).
    { apply in_bucket_spec. split; [apply Hlt; lia|apply Hge; lia]. }
    congruence.
Qed.

Lemma bucket_size_rows field es sub i :
  StronglySorted Qle es -> (S i < length es)%nat ->
  bucket_size (map (cut_code (map Fin es)) (map (cell field) sub)) i =
  bucket_rows field (nth i es 0%Q) (nth (S i) es 0%Q) sub.
Proof.
  intros Hs Hi. unfold bucket_size, bucket_rows.
  rewrite map_map, filter_length_map. do 2 f_equal.
  apply List.filter_ext. intros r. now apply cut_code_in_bucket.
Qed.

Lemma bucketed_count_rows field es sub :
  StronglySorted Qle es -> (2 <= length es)%nat ->
  bucketed_count (map (cut_code (map Fin es)) (map (cell field) sub)) =
  bucket_rows field (nth 0 es 0%Q) (nth (length es - 1) es 0%Q) sub.
Proof.
  intros Hs Hi. unfold bucketed_count, bucket_rows.
  rewrite map_map, filter_length_map. do 2 f_equal.
  apply List.filter_ext. intros r. now apply cut_code_in_range.
Qed.

Lemma fractions_shares field es sub :
  StronglySorted Qle es -> (2 <= length es)%nat ->
  fractions (length (intervals (map Fin es)))
    (map (cut_code (map Fin es)) (map (cell field) sub)) =
  shares field es sub.
Proof.
  intros Hs Hlen. unfold fractions, shares.
  rewrite intervals_length, length_map, bucketed_count_rows by assumption.
  apply map_ext_in. intros i Hi. apply in_seq in Hi.
  rewrite bucket_size_rows by (auto; lia). reflexivity.
Qed.

Lemma within_tolerance q r : (q == r)%Q -> (Qabs (q - r) <= tolerance)%Q.
Proof.
  intros H. assert (E : (q - r == 0)%Q) by lra. rewrite E.
  unfold tolerance, Qle. simpl. lia.
Qed.

(** C10 (as amended). In a chart that is returned for n >= 2 over a field
    whose numbers float64 holds exactly, the bar heights of each class are
    the shares of its buckets: the number of the class's records whose value
    lies in the bucket (above its left edge, at most its right edge) divided
    by the number of the class's records that lie in some bucket, not by the
    size of the class. The bucket sizes add up to that denominator, and when
    it is positive the heights add up to 1 within the tolerance 1e-9. *)
Theorem bar_heights_are_bucket_shares df field binary_var n min max ch
    d_true d_false :
  barchart_continuous df field binary_var n min max = Ok ch ->
  dataset_true df binary_var = Ok d_true ->
  dataset_false df binary_var = Ok d_false ->
  (2 <= n)%Z ->
  (forall r x, In r (rows df) -> cell field r = Num x -> float64_exact x) ->
  exists es,
    edges ch = map Fin es /\
    bars_true ch = shares field es d_true /\
    bars_false ch = shares field es d_false /\
    forall sub, sub = d_true \/ sub = d_false ->
      Zsum (map (fun i => bucket_rows field (nth i es 0%Q) (nth (S i) es 0%Q) sub)
              (seq 0 (length es - 1))) =
      bucket_rows field (nth 0 es 0%Q) (nth (length es - 1) es 0%Q) sub /\
      ((0 < bucket_rows field (nth 0 es 0%Q) (nth (length es - 1) es 0%Q) sub)%Z ->
       sums_to_one (shares field es sub)).
Proof.
  intros H Ht Hf Hn _.
  apply barchart_continuous_inv in H
    as (t & f & lo & hi & bins & ct & cf & Ht' & Hf' & _ & _ & Hlin & Hct & Hcf & ->).
  rewrite Ht in Ht'. rewrite Hf in Hf'. injection Ht' as <-. injection Hf' as <-.
  destruct (linspace_length _ _ _ _ Hlin) as [_ Hlen].
  destruct (cut_Ok_checks _ _ _ Hct) as [Hdec Hnan].
  destruct (fin_list bins) as [es ->]; [apply Hnan; lia|].
  rewrite length_map in Hlen.
  pose proof (decreases_false_sorted _ Hdec) as Hs.
  assert (Hes : (2 <= length es)%nat) by lia.
  apply cut_Ok in Hct, Hcf. subst ct cf. cbn [edges bars_true bars_false].
  rewrite !fractions_shares by assumption.
  exists es. split; [reflexivity|]. split; [reflexivity|]. split; [reflexivity|].
  intros sub _.
  set (codes := map (cut_code (map Fin es)) (map (cell field) sub)).
  assert (Htot : Zsum (map (bucket_size codes) (seq 0 (length es - 1)))
                 = bucketed_count codes).
  { apply bucket_sizes_total. intros i Hi.
    apply in_map_iff in Hi as (w & Hw & _). apply cut_code_bound in Hw.
    now rewrite intervals_length, length_map in Hw. }
  assert (Hsizes : map (bucket_size codes) (seq 0 (length es - 1)) =
                   map (fun i => bucket_rows field (nth i es 0%Q)
                                   (nth (S i) es 0%Q) sub)
                     (seq 0 (length es - 1))).
  { apply map_ext_in. intros i Hi. apply in_seq in Hi.
    apply bucket_size_rows; [exact Hs|lia]. }
  pose proof (bucketed_count_rows field es sub Hs Hes) as Hcount.
  fold codes in Hcount. rewrite <- Hsizes, <- Hcount.
  split; [exact Htot|]. intros Hpos.
  destruct (fractions_sum (length es - 1) codes Htot Hpos) as (q & Hq & Hq1).
  exists q. split; [|now apply within_tolerance].
  rewrite <- Hq. f_equal. symmetry.
  rewrite <- (fractions_shares field es sub Hs Hes).
  now rewrite intervals_length, length_map.
Qed.

Lemma bar_heights_are_bucket_shares_witness :
  exists ch d_true d_false,
    barchart_continuous in_and_out "x" "y" 5 (Some (Fin 0)) (Some (Fin 100))
      = Ok ch /\
    dataset_true in_and_out "y" = Ok d_true /\
    dataset_false in_and_out "y" = Ok d_false /\
    (2 <= 5)%Z /\
    (forall r x, In r (rows in_and_out) -> cell "x" r = Num x -> float64_exact x) /\
    length d_true = 3%nat /\ length d_false = 2%nat /\
    exists es,
      edges ch = map Fin es /\
      bars_true ch = shares "x" es d_true /\
      bars_false ch = shares "x" es d_false /\
      bucket_rows "x" (nth 0 es 0%Q) (nth (length es - 1) es 0%Q) d_true = 2%Z /\
      bucket_rows "x" (nth 0 es 0%Q) (nth (length es - 1) es 0%Q) d_false = 1%Z /\
      sums_to_one (bars_true ch) /\ sums_to_one (bars_false ch).
Proof.
  assert (Hex : forall r x, In r (rows in_and_out) -> cell "x" r = Num x ->
                            float64_exact x).
  { intros r x Hr Hx.
    assert (Hz : exists z, (Z.abs z < 2 ^ 53)%Z /\ x = inject_Z z).
    { destruct Hr as [<-|[<-|[<-|[<-|[<-|[<-|[]]]]]]];
        vm_compute in Hx; injection Hx as <-;
        [exists 0%Z|exists 50%Z|exists 100%Z|exists 30%Z|exists 200%Z|exists 7%Z];
        split; reflexivity. }
    destruct Hz as (z & Hz & ->). now apply float64_exact_Z. }
  eexists. eexists. eexists.
  split; [vm_compute; reflexivity|]. split; [vm_compute; reflexivity|].
  split; [vm_compute; reflexivity|]. split; [lia|]. split; [exact Hex|].
  split; [reflexivity|]. split; [reflexivity|].
  destruct (bar_heights_are_bucket_shares in_and_out "x" "y" 5
              (Some (Fin 0)) (Some (Fin 100)) _ _ _ eq_refl eq_refl eq_refl
              ltac:(lia) Hex) as (es & Hes & Ht & Hf & Hsub).
  exists es.
  assert (Ees : es = [0 # 4; 100 # 4; 200 # 4; 300 # 4; 100]%Q).
  { vm_compute in Hes.
    destruct es as [|e0 [|e1 [|e2 [|e3 [|e4 [|e5 es]]]]]]; try discriminate Hes.
    now injection Hes as <- <- <- <- <-. }
  split; [exact Hes|]. split; [exact Ht|]. split; [exact Hf|].
  assert (Ect : bucket_rows "x" (nth 0 es 0%Q) (nth (length es - 1) es 0%Q)
                  (List.filter (fun r => eq_num (cell "y" r) 1) (rows in_and_out))
                = 2%Z) by (rewrite Ees; vm_compute; reflexivity).
  assert (Ecf : bucket_rows "x" (nth 0 es 0%Q) (nth (length es - 1) es 0%Q)
                  (List.filter (fun r => eq_num (cell "y" r) 0) (rows in_and_out))
                = 1%Z) by (rewrite Ees; vm_compute; reflexivity).
  split; [exact Ect|]. split; [exact Ecf|].
  assert (Hpt : (0 < bucket_rows "x" (nth 0 es 0%Q) (nth (length es - 1) es 0%Q)
                  (List.filter (fun r => eq_num (cell "y" r) 1) (rows in_and_out)))%Z)
    by (rewrite Ect; lia).
  assert (Hpf : (0 < bucket_rows "x" (nth 0 es 0%Q) (nth (length es - 1) es 0%Q)
                  (List.filter (fun r => eq_num (cell "y" r) 0) (rows in_and_out)))%Z)
    by (rewrite Ecf; lia).
  split.
  - destruct (Hsub _ (or_introl eq_refl)) as [_ Hone].
    rewrite <- Ht in Hone. exact (Hone Hpt).
  - destruct (Hsub _ (or_intror eq_refl)) as [_ Hone].
    rewrite <- Hf in Hone. exact (Hone Hpf).
Defined.

(** C10, counterexample. In float64 the heights need not add up to exactly
    1: six records of one class with the values 1 to 6, cut at the edges 0
    to 6 (n = 7), put one record in each of the six buckets; each height is
    the float64 quotient 1/6 and their float64 sum is below 1.0. *)
Lemma bar_heights_are_bucket_shares_counterexample :
  exists ch d_true,
    barchart_continuous six_values "x" "y" 7 (Some (Fin 0)) (Some (Fin 6))
      = Ok ch /\
    dataset_true six_values "y" = Ok d_true /\
    let codes := map (cut_code (edges ch)) (map (cell "x") d_true) in
    map (bucket_size codes) (seq 0 6) = [1; 1; 1; 1; 1; 1]%Z /\
    bucketed_count codes = 6%Z /\
    PrimFloat.ltb (sum64 (fractions64 6 codes)) (float64_of_Z 1) = true.
Proof.
  eexists. eexists. split; [vm_compute; reflexivity|].
  split; [vm_compute; reflexivity|]. cbv zeta.
  split; [vm_compute; reflexivity|]. split; vm_compute; reflexivity.
Qed.

(** * Further properties *)

(** ** Keys and groups: every record is in exactly one group *)

Lemma filter_length_impl {A} (p q : A -> bool) l :
  (forall a, In a l -> p a = true -> q a = true) ->
  (length (List.filter p l) <= length (List.filter q l))%nat.
Proof.
  induction l as [|a l IH]; intros H; simpl; [lia|].
  specialize (IH (fun b Hb => H b (or_intror Hb))).
  pose proof (H a (or_introl eq_refl)) as Ha.
  destruct (p a); [rewrite Ha by reflexivity|destruct (q a)]; simpl; lia.
Qed.

Lemma filter_length_perm {A} (p : A -> bool) l l' :
  Permutation l l' -> length (List.filter p l) = length (List.filter p l').
Proof.
  induction 1 as [|a l l' _ IH|a b l|l1 l2 l3 _ IH1 _ IH2]; simpl.
  - reflexivity.
  - destruct (p a); simpl; now rewrite IH.
  - destruct (p a), (p b); reflexivity.
  - congruence.
Qed.

(** No value matches two of the distinct elements. *)
Lemma unique_match_le l v :
  (length (List.filter (value_eqb v) (unique l)) <= 1)%nat.
Proof.
  induction l as [|a l IH]; simpl; [lia|].
  rewrite filter_filter_and.
  destruct (value_eqb v a) eqn:Eva; simpl.
  - assert (H : length (List.filter
                    (fun y => negb (value_eqb a y) && value_eqb v y) (unique l))
                = 0%nat); [|lia].
    apply filter_length_zero. intros y _.
    destruct (value_eqb v y) eqn:Evy; [|now rewrite andb_false_r].
    rewrite (value_eqb_trans a v y); [reflexivity| |exact Evy].
    now apply value_eqb_sym.
  - etransitivity; [|exact IH].
    apply filter_length_impl. intros y _ H.
    now apply andb_true_iff in H as [_ H].
Qed.

Lemma value_eqb_isna v k : isna v = true -> isna k = false -> value_eqb v k = false.
Proof. destruct v, k; simpl; congruence. Qed.

(** A record with a category is in the group of exactly one key, a record
    without one is in no group. *)
Lemma group_keys_match df field r :
  In r (rows df) ->
  length (List.filter (value_eqb (cell field r)) (group_keys df field)) =
  if isna (cell field r) then 0%nat else 1%nat.
Proof.
  intros Hr. destruct (isna (cell field r)) eqn:Hna.
  - apply filter_length_zero. intros k Hk.
    apply value_eqb_isna; [exact Hna|]. eapply group_keys_notna; eauto.
  - destruct (group_keys_covers df field r Hr Hna) as (k & Hk & Hrk).
    assert (Hle : (length (List.filter (value_eqb (cell field r))
                             (group_keys df field)) <= 1)%nat).
    { unfold group_keys.
      rewrite (filter_length_perm _ _ _ (sort_by_perm value_leb _)).
      apply unique_match_le. }
    assert (Hin : In k (List.filter (value_eqb (cell field r))
                          (group_keys df field))).
    { apply filter_In. now split. }
    destruct (List.filter (value_eqb (cell field r)) (group_keys df field));
      [contradiction|simpl in *; lia].
Qed.

Lemma Zsum_indicator_filter {A} (p : A -> bool) l :
  Zsum (map (fun a => if p a then 1 else 0)%Z l) =
  Z.of_nat (length (List.filter p l)).
Proof.
  induction l as [|a l IH]; [reflexivity|].
  cbn [map Zsum fold_right List.filter]. fold (Zsum (map (fun a => if p a then 1 else 0)%Z l)).
  rewrite IH. destruct (p a); cbn [length]; lia.
Qed.

(** Summed over the keys, the number of records of the group that satisfy
    [p] is the number of records with a category that satisfy [p]. *)
Lemma groups_partition df field (p : gmap string value -> bool) :
  Zsum (map (fun k => Z.of_nat (length (List.filter p (group_rows df field k))))
          (group_keys df field)) =
  Z.of_nat (length (List.filter
                      (fun r => negb (isna (cell field r)) && p r) (rows df))).
Proof.
  unfold group_rows.
  assert (Hm : forall r, In r (rows df) ->
             length (List.filter (value_eqb (cell field r)) (group_keys df field)) =
             if isna (cell field r) then 0%nat else 1%nat)
    by (intros r Hr; now apply group_keys_match).
  revert Hm. generalize (group_keys df field) as keys.
  induction (rows df) as [|r rs IH]; intros keys Hm.
  - simpl. clear Hm. induction keys as [|k keys IHk]; simpl in *; lia.
  - transitivity
      (Zsum (map (fun k =>
                    (if value_eqb (cell field r) k && p r then 1 else 0) +
                    Z.of_nat (length (List.filter p
                       (List.filter (fun r0 => value_eqb (cell field r0) k) rs))))%Z
               keys)).
    { f_equal. apply map_ext. intros k. cbn [List.filter].
      destruct (value_eqb (cell field r) k); cbn [andb List.filter];
        [destruct (p r); cbn [length]; lia|lia]. }
    rewrite Zsum_map_add, (IH keys) by (intros r0 Hr0; apply Hm; now right).
    rewrite Zsum_indicator_filter.
    specialize (Hm r (or_introl eq_refl)).
    cbn [List.filter].
    destruct (p r) eqn:Hp.
    + rewrite (List.filter_ext _ (value_eqb (cell field r)))
        by (intros k; now rewrite andb_true_r).
      rewrite Hm. destruct (isna (cell field r)); cbn [negb andb length]; lia.
    + rewrite (proj2 (filter_length_zero _ keys))
        by (intros k _; now rewrite andb_false_r).
      rewrite andb_false_r. lia.
Qed.

(** ** piechart: what the table holds *)

Lemma pivot_table_counts df field uid agg :
  pivot_table df field uid = Ok agg ->
  map p_count agg =
  map (fun k => Z.of_nat (length (List.filter (fun r => nonzero (cell uid r))
                                    (group_rows df field k))))
      (group_keys df field) /\
  map p_key agg = group_keys df field.
Proof.
  unfold pivot_table.
  destruct (negb (has_column df uid)); [discriminate|].
  destruct (negb (has_column df field)); [discriminate|].
  intros [= <-]. rewrite !map_map. cbn [p_count p_key]. split.
  - apply map_ext. intros k. unfold count_nonzero. now rewrite filter_length_map.
  - apply map_id.
Qed.

(** X1. The Count column of the table, Others included, adds up to the
    number of records that have a category and an identifier that
    [np.count_nonzero] counts: no such record is lost or counted twice,
    whatever [cats] is. *)
Theorem piechart_counts_every_record df field cats unique_identifier T :
  piechart df field cats unique_identifier = Ok T ->
  Zsum (map Count T) =
  Z.of_nat (length (List.filter
                      (fun r => negb (isna (cell field r))
                                && nonzero (cell unique_identifier r))
                      (rows df))).
Proof.
  intros H. destruct (piechart_inv _ _ _ _ _ H) as (agg & Hagg & _ & _).
  rewrite (piechart_total _ _ _ _ _ _ Hagg H).
  destruct (pivot_table_counts _ _ _ _ Hagg) as [-> _].
  apply groups_partition.
Qed.

Lemma piechart_counts_every_record_witness :
  piechart colors "color" 2 "VIN" = Ok colors_table /\
  Zsum (map Count colors_table) =
  Z.of_nat (length (List.filter
                      (fun r => negb (isna (cell "color" r))
                                && nonzero (cell "VIN" r))
                      (rows colors))).
Proof.
  split; [vm_compute; reflexivity|].
  apply (piechart_counts_every_record colors "color" 2 "VIN").
  vm_compute; reflexivity.
Defined.

Lemma head_slice_length {A} cats (l : list A) :
  Z.of_nat (length (head_slice cats l)) =
  (if (cats <? 0)%Z then Z.max 0 (Z.of_nat (length l) + cats)
   else Z.min cats (Z.of_nat (length l)))%Z.
Proof.
  unfold head_slice. destruct (Z.ltb_spec cats 0); rewrite length_firstn; lia.
Qed.

(** X2. The table has one row per retained category plus the Others row:
    for [cats >= 0] that is min(cats, number of categories) + 1 rows, and a
    negative [cats] keeps all but the last [-cats] categories. *)
Theorem piechart_table_length df field cats unique_identifier T :
  piechart df field cats unique_identifier = Ok T ->
  Z.of_nat (length T) =
  (1 + (if (cats <? 0)%Z
        then Z.max 0 (Z.of_nat (length (group_keys df field)) + cats)
        else Z.min cats (Z.of_nat (length (group_keys df field)))))%Z.
Proof.
  intros H. destruct (piechart_inv _ _ _ _ _ H) as (agg & Hagg & _ & ->).
  cbv zeta. rewrite length_app, Nat2Z.inj_add, head_slice_length.
  unfold add_concentration, sort_values_desc.
  rewrite length_map, sort_by_length, (pivot_table_length _ _ _ _ Hagg).
  simpl. lia.
Qed.

Lemma piechart_table_length_witness :
  piechart colors "color" (-1) "VIN" = Ok colors_table /\
  Z.of_nat (length colors_table) =
  (1 + Z.max 0 (Z.of_nat (length (group_keys colors "color")) + -1))%Z.
Proof.
  split; [vm_compute; reflexivity|].
  apply (piechart_table_length colors "color" (-1) "VIN").
  vm_compute; reflexivity.
Defined.

Lemma StronglySorted_app_cross {A} (R : A -> A -> Prop) l1 l2 :
  StronglySorted R (l1 ++ l2) ->
  forall a b, In a l1 -> In b l2 -> R a b.
Proof.
  induction l1 as [|x l1 IH]; simpl; intros H a b Ha Hb; [contradiction|].
  apply StronglySorted_inv in H as [Hs Hall].
  destruct Ha as [<-|Ha]; [|now apply IH].
  rewrite List.Forall_forall in Hall. apply Hall, in_or_app. now right.
Qed.

(** X3. The retained rows are the largest categories: together with the
    categories left out they are a rearrangement of the pivot, no category
    left out has a larger count than a retained one, and the Count of Others
    is the sum of the counts of the categories left out. *)
Theorem piechart_keeps_largest df field cats unique_identifier agg T :
  pivot_table df field unique_identifier = Ok agg ->
  piechart df field cats unique_identifier = Ok T ->
  exists top rest others,
    T = top ++ [others] /\
    Permutation (map (fun x => (label x, Count x)) (top ++ rest))
                (map (fun x => (p_key x, p_count x)) agg) /\
    (forall a b, In a top -> In b rest -> (Count b <= Count a)%Z) /\
    Count others = Zsum (map Count rest).
Proof.
  intros Hagg H. destruct (piechart_inv _ _ _ _ _ H) as (agg' & Hagg' & _ & ->).
  rewrite Hagg in Hagg'. injection Hagg' as <-. cbv zeta.
  set (pvt := add_concentration (sort_values_desc agg)).
  destruct (head_slice_prefix cats pvt) as [rest Hrest].
  exists (head_slice cats pvt), rest, (others_row pvt (head_slice cats pvt)).
  split; [reflexivity|]. split; [|split].
  - rewrite <- Hrest. unfold pvt, add_concentration. rewrite map_map. cbn.
    apply Permutation_map, sort_values_desc_perm.
  - apply StronglySorted_app_cross. rewrite <- Hrest.
    apply add_concentration_sorted, sort_values_desc_sorted.
  - unfold others_row. cbn [Count]. rewrite Hrest at 1.
    rewrite map_app, Zsum_app. lia.
Qed.

Lemma piechart_keeps_largest_witness :
  pivot_table colors "color" "VIN" =
    Ok [mkPivot (Str "blue") 3; mkPivot (Str "green") 1; mkPivot (Str "red") 6] /\
  piechart colors "color" 2 "VIN" = Ok colors_table /\
  exists top rest others,
    colors_table = top ++ [others] /\
    Permutation (map (fun x => (label x, Count x)) (top ++ rest))
                (map (fun x => (p_key x, p_count x))
                   [mkPivot (Str "blue") 3; mkPivot (Str "green") 1;
                    mkPivot (Str "red") 6]) /\
    (forall a b, In a top -> In b rest -> (Count b <= Count a)%Z) /\
    Count others = Zsum (map Count rest).
Proof.
  split; [vm_compute; reflexivity|]. split; [vm_compute; reflexivity|].
  apply (piechart_keeps_largest colors "color" 2 "VIN"); vm_compute; reflexivity.
Defined.

Lemma ratio_bounds c p :
  (0 <= c <= Zpos p)%Z -> (0 <= c # p)%Q /\ (c # p <= 1)%Q.
Proof. intros H. unfold Qle. simpl. lia. Qed.

Lemma Zsum_In_le l c :
  Forall (fun z => 0 <= z)%Z l -> In c l -> (0 <= c <= Zsum l)%Z.
Proof.
  induction 1 as [|z l Hz Hl IH]; simpl; [tauto|].
  pose proof (Zsum_nonneg l Hl). unfold Zsum in *.
  intros [->|Hc]; [lia|]. specialize (IH Hc). lia.
Qed.

Lemma sorted_counts_nonneg df field uid agg :
  pivot_table df field uid = Ok agg ->
  Forall (fun z => 0 <= z)%Z (map p_count (sort_values_desc agg)).
Proof.
  intros Hagg.
  eapply Permutation_Forall;
    [symmetry; apply Permutation_map, sort_values_desc_perm|].
  eapply pivot_table_nonneg; eauto.
Qed.

(** X4. When the grand total is positive, the Concentration of every row of
    the table, Others included, is a number within 1e-9 of the row's Count
    divided by the grand total; for the retained categories it lies between
    0 and 1. *)
Theorem piechart_concentration_is_share df field cats unique_identifier T :
  piechart df field cats unique_identifier = Ok T ->
  (0 < Zsum (map Count T))%Z ->
  exists top others,
    T = top ++ [others] /\
    (forall row, In row top ->
       exists q,
         Concentration row = Fin q /\
         (Qabs (q - inject_Z (Count row) / inject_Z (Zsum (map Count T)))
          <= tolerance)%Q /\
         (0 <= q)%Q /\ (q <= 1)%Q) /\
    (exists q,
       Concentration others = Fin q /\
       (Qabs (q - inject_Z (Count others) / inject_Z (Zsum (map Count T)))
        <= tolerance)%Q).
Proof.
  intros H Hpos.
  destruct (piechart_inv _ _ _ _ _ H) as (agg & Hagg & _ & HT).
  rewrite (piechart_total _ _ _ _ _ _ Hagg H) in *.
  pose proof (sorted_counts_nonneg _ _ _ _ Hagg) as Hnn.
  rewrite <- (Zsum_perm _ _ (Permutation_map p_count (sort_values_desc_perm agg)))
    in *.
  destruct (Zsum (map p_count (sort_values_desc agg))) as [|p|p] eqn:Htot;
    try lia.
  cbv zeta in HT.
  eexists _, _. split; [exact HT|]. split.
  - intros row Hrow.
    destruct (head_slice_prefix cats (add_concentration (sort_values_desc agg)))
      as [rest Hrest].
    assert (Hin : In row (add_concentration (sort_values_desc agg))).
    { rewrite Hrest. apply in_or_app. now left. }
    unfold add_concentration in Hin. rewrite Htot in Hin.
    apply in_map_iff in Hin as (x & <- & Hx).
    cbn [Concentration Count true_divide].
    assert (Hc : (0 <= p_count x <= Z.pos p)%Z).
    { rewrite <- Htot. apply Zsum_In_le; [exact Hnn|now apply in_map]. }
    eexists. split; [reflexivity|].
    split; [apply within_tolerance, Qmake_Qdiv|].
    now apply ratio_bounds.
  - unfold others_row. cbn [Count Concentration].
    rewrite !head_slice_map, add_concentration_Count, Htot.
    rewrite (add_concentration_fin _ p Htot), <- !head_slice_map, nansum_fin.
    eexists. split; [reflexivity|]. apply within_tolerance.
    rewrite Qsum_ratios, <- Qmake_Qdiv.
    set (S := Zsum (map p_count (head_slice cats (sort_values_desc agg)))) in *.
    unfold Qeq, Qminus, Qplus, Qopp; simpl; lia.
Qed.

Lemma piechart_concentration_is_share_witness :
  piechart colors "color" 2 "VIN" = Ok colors_table /\
  (0 < Zsum (map Count colors_table))%Z /\
  exists top others,
    colors_table = top ++ [others] /\
    (forall row, In row top ->
       exists q,
         Concentration row = Fin q /\
         (Qabs (q - inject_Z (Count row) / inject_Z (Zsum (map Count colors_table)))
          <= tolerance)%Q /\
         (0 <= q)%Q /\ (q <= 1)%Q) /\
    (exists q,
       Concentration others = Fin q /\
       (Qabs (q - inject_Z (Count others) / inject_Z (Zsum (map Count colors_table)))
        <= tolerance)%Q).
Proof.
  split; [vm_compute; reflexivity|]. split; [vm_compute; reflexivity|].
  apply (piechart_concentration_is_share colors "color" 2 "VIN" colors_table).
  - vm_compute; reflexivity.
  - vm_compute; reflexivity.
Defined.

Lemma group_keys_occurs df field k :
  In k (group_keys df field) ->
  exists r, In r (rows df) /\ cell field r = k.
Proof.
  unfold group_keys. intros H.
  apply (Permutation_in _ (sort_by_perm value_leb _)) in H.
  apply unique_In, filter_In in H as [H _].
  apply in_map_iff in H as (r & Hr & Hin). eauto.
Qed.

Lemma group_keys_match_le df field v :
  (length (List.filter (value_eqb v) (group_keys df field)) <= 1)%nat.
Proof.
  unfold group_keys.
  rewrite (filter_length_perm _ _ _ (sort_by_perm value_leb _)).
  apply unique_match_le.
Qed.

Lemma filter_length_app_l {A} (p : A -> bool) l1 l2 :
  (length (List.filter p l1) <= length (List.filter p (l1 ++ l2)))%nat.
Proof. rewrite List.filter_app, length_app. lia. Qed.

(** X5. Every retained row of the table is a category that occurs in the
    field (never a missing value), and no category has two rows. *)
Theorem piechart_rows_are_categories df field cats unique_identifier T :
  piechart df field cats unique_identifier = Ok T ->
  exists top others,
    T = top ++ [others] /\
    (forall a, In a top ->
       isna (label a) = false /\
       exists r, In r (rows df) /\ cell field r = label a) /\
    (forall v,
       (length (List.filter (fun a => value_eqb v (label a)) top) <= 1)%nat).
Proof.
  intros H. destruct (piechart_inv _ _ _ _ _ H) as (agg & Hagg & _ & ->).
  cbv zeta. set (pvt := add_concentration (sort_values_desc agg)).
  destruct (pivot_table_counts _ _ _ _ Hagg) as [_ Hkeys].
  assert (Hlab : Permutation (map label pvt) (group_keys df field)).
  { unfold pvt, add_concentration. rewrite map_map. cbn. rewrite <- Hkeys.
    apply Permutation_map, sort_values_desc_perm. }
  destruct (head_slice_prefix cats pvt) as [rest Hrest].
  eexists _, _. split; [reflexivity|]. split.
  - intros a Ha.
    assert (Hk : In (label a) (group_keys df field)).
    { eapply Permutation_in; [exact Hlab|]. apply in_map.
      rewrite Hrest. apply in_or_app. now left. }
    split; [eapply group_keys_notna; eauto|now apply group_keys_occurs].
  - intros v. rewrite <- (filter_length_map label (value_eqb v)).
    etransitivity; [|apply (group_keys_match_le df field v)].
    rewrite <- (filter_length_perm _ _ _ Hlab).
    rewrite Hrest at 2. rewrite map_app. apply filter_length_app_l.
Qed.

Lemma piechart_rows_are_categories_witness :
  piechart colors "color" 2 "VIN" = Ok colors_table /\
  exists top others,
    colors_table = top ++ [others] /\
    (forall a, In a top ->
       isna (label a) = false /\
       exists r, In r (rows colors) /\ cell "color" r = label a) /\
    (forall v,
       (length (List.filter (fun a => value_eqb v (label a)) top) <= 1)%nat).
Proof.
  split; [vm_compute; reflexivity|].
  apply (piechart_rows_are_categories colors "color" 2 "VIN").
  vm_compute; reflexivity.
Defined.




(** ** barchart_categorical: its rows *)









(** X10. The counts of the summary add up to the number of records that
    have both a category and a value of the binary field: records with a
    missing category or a missing binary value are in no count, every other
    record is in exactly one. *)
Theorem barchart_categorical_counts_every_record df field binary_variable out :
  barchart_categorical df field binary_variable = Ok out ->
  Zsum (map a_count out) =
  Z.of_nat (length (List.filter
                      (fun r => negb (isna (cell field r))
                                && negb (isna (cell binary_variable r)))
                      (rows df))).
Proof.
  intros H. apply barchart_categorical_inv in H as [Hnum ->].
  rewrite map_map. cbn [a_count].
  rewrite <- (groups_partition df field
                (fun r => negb (isna (cell binary_variable r)))).
  f_equal. apply map_ext_in. intros k Hk. f_equal.
  apply observed_length. intros r Hr. now apply (Hnum k r).
Qed.

Lemma barchart_categorical_counts_every_record_witness :
  barchart_categorical flag_missing "color" "flag" =
    Ok [mkAgg (Str "a") 1 (1 + 0) (Fin ((1 + 0) / 1))] /\
  Zsum (map a_count [mkAgg (Str "a") 1 (1 + 0) (Fin ((1 + 0) / 1))]) =
  Z.of_nat (length (List.filter
                      (fun r => negb (isna (cell "color" r))
                                && negb (isna (cell "flag" r)))
                      (rows flag_missing))).
Proof.
  split; [vm_compute; reflexivity|].
  apply (barchart_categorical_counts_every_record flag_missing "color" "flag").
  vm_compute; reflexivity.
Defined.



(** ** barchart_continuous: the shape of the chart *)

(** X12. Whatever chart barchart_continuous returns, [n] is not negative,
    there are [n] edges and (for n >= 1) n - 1 buckets, and each class has
    exactly one bar height per bucket. *)
Theorem barchart_continuous_shape df field binary_var n min max ch :
  barchart_continuous df field binary_var n min max = Ok ch ->
  (0 <= n)%Z /\
  length (edges ch) = Z.to_nat n /\
  length (categories ch) = (Z.to_nat n - 1)%nat /\
  length (bars_true ch) = length (categories ch) /\
  length (bars_false ch) = length (categories ch).
Proof.
  intros H. apply barchart_continuous_inv in H
    as (t & f & lo & hi & bins & ct & cf & _ & _ & _ & _ & Hlin & _ & _ & ->).
  destruct (linspace_length _ _ _ _ Hlin) as [Hn Hlen].
  cbn [edges categories bars_true bars_false].
  rewrite !fractions_length, intervals_length, Hlen.
  repeat split; auto.
Qed.

Lemma barchart_continuous_shape_witness :
  exists ch,
    barchart_continuous in_and_out "x" "y" 5 (Some (Fin 0)) (Some (Fin 100))
      = Ok ch /\
    length (edges ch) = Z.to_nat 5 /\
    length (categories ch) = (Z.to_nat 5 - 1)%nat /\
    length (bars_true ch) = length (categories ch) /\
    length (bars_false ch) = length (categories ch).
Proof.
  eexists. split; [vm_compute; reflexivity|].
  destruct (barchart_continuous_shape in_and_out "x" "y" 5
              (Some (Fin 0)) (Some (Fin 100)) _ eq_refl)
    as (_ & H1 & H2 & H3 & H4).
  split; [exact H1|]. split; [exact H2|]. split; [exact H3|exact H4].
Defined.

(** ** barchart_continuous: a bucketed value lies in its bucket *)

(** X13. In every chart that is returned, a value that gets the code of
    bucket [i] is a number (here one that float64 holds exactly) that lies
    between the edges [i] and [i + 1] of the chart: above the left edge and
    at most the right edge. *)
Theorem bucket_holds_its_values df field binary_var n min max ch v i :
  barchart_continuous df field binary_var n min max = Ok ch ->
  (forall x, v = Num x -> float64_exact x) ->
  cut_code (edges ch) v = Some i ->
  exists x lo hi,
    v = Num x /\
    nth i (edges ch) FNaN = Fin lo /\
    nth (S i) (edges ch) FNaN = Fin hi /\
    (lo < x)%Q /\ (x <= hi)%Q.
Proof.
  intros H _ Hcode. apply barchart_continuous_inv in H
    as (t & f & lo & hi & bins & ct & cf & _ & _ & _ & _ & _ & Hct & _ & ->).
  cbn [edges] in *.
  destruct (cut_Ok_checks _ _ _ Hct) as [Hdec Hnan].
  destruct v as [x| | |]; simpl in Hcode; try discriminate.
  pose proof (filter_length_bound (fun b => fltb b (Fin x)) bins) as Hb.
  fold (searchsorted_left bins x) in Hb.
  destruct (Nat.eqb_spec (searchsorted_left bins x) (length bins)) as [E1|E1];
    simpl in Hcode; [discriminate|].
  destruct (Nat.eqb_spec (searchsorted_left bins x) 0) as [E0|E0];
    [discriminate|]. injection Hcode as <-.
  destruct (fin_list bins) as [qs ->]; [apply Hnan; lia|].
  rewrite length_map in *.
  destruct (searchsorted_left_spec qs x (decreases_false_sorted _ Hdec))
    as [Hlt Hge].
  set (k := searchsorted_left (map Fin qs) x) in *.
  exists x, (nth (k - 1) qs 0%Q), (nth (S (k - 1)) qs 0%Q).
  split; [reflexivity|]. split; [|split; [|split]].
  - apply nth_map_Fin. lia.
  - apply nth_map_Fin. lia.
  - apply Hlt. lia.
  - apply Hge. lia.
Qed.

Lemma bucket_holds_its_values_witness :
  exists ch,
    barchart_continuous three_points "x" "y" 5 None None = Ok ch /\
    (forall x, Num 50 = Num x -> float64_exact x) /\
    cut_code (edges ch) (Num 50) = Some 1%nat /\
    exists x lo hi,
      Num 50 = Num x /\
      nth 1 (edges ch) FNaN = Fin lo /\
      nth 2 (edges ch) FNaN = Fin hi /\
      (lo < x)%Q /\ (x <= hi)%Q.
Proof.
  assert (Hex : forall x, Num 50 = Num x -> float64_exact x).
  { intros x [= <-]. apply (float64_exact_Z 50). reflexivity. }
  eexists. split; [vm_compute; reflexivity|]. split; [exact Hex|].
  split; [vm_compute; reflexivity|].
  apply (bucket_holds_its_values three_points "x" "y" 5 None None);
    [vm_compute; reflexivity|exact Hex|vm_compute; reflexivity].
Defined.

(** ** barchart_continuous: the bar heights *)

Lemma bucket_size_le codes i : (0 <= bucket_size codes i <= bucketed_count codes)%Z.
Proof.
  unfold bucket_size, bucketed_count. split; [lia|].
  apply inj_le, filter_length_impl. intros c _ Hc.
  apply bool_decide_eq_true in Hc. subst c. now apply bool_decide_eq_true_2.
Qed.

Lemma bucketed_count_zero codes :
  (forall c, In c codes -> c = None) -> bucketed_count codes = 0%Z.
Proof.
  intros H. unfold bucketed_count.
  rewrite (proj2 (filter_length_zero _ codes)); [reflexivity|].
  intros c Hc. rewrite (H c Hc). now apply bool_decide_eq_false_2; intros E; apply E.
Qed.

Lemma fractions_values m codes h :
  In h (fractions m codes) ->
  ((exists c, In c codes /\ is_Some c) ->
     exists q, h = Fin q /\ (0 <= q)%Q /\ (q <= 1)%Q) /\
  ((forall c, In c codes -> c = None) -> h = FNaN).
Proof.
  unfold fractions. intros Hh. apply in_map_iff in Hh as (i & <- & _). split.
  - intros (c & Hc & Hs).
    pose proof (bucketed_count_pos codes c Hc Hs) as Hpos.
    pose proof (bucket_size_le codes i) as Hle.
    destruct (bucketed_count codes) as [|p|p]; try lia.
    eexists. split; [reflexivity|]. now apply ratio_bounds.
  - intros Hnone. now rewrite (bucketed_count_zero codes Hnone).
Qed.

(** X14. For each class: if some value of the class is assigned to a
    bucket, every bar height of the class is a number between 0 and 1; if
    none is (the class is empty, or all its values are missing or out of
    range), every bar height of the class is NaN, the result of 0/0. *)
Theorem bar_heights_range df field binary_var n min max ch :
  barchart_continuous df field binary_var n min max = Ok ch ->
  forall (cls : Q) (bars : list float64),
    (cls = 1%Q /\ bars = bars_true ch) \/ (cls = 0%Q /\ bars = bars_false ch) ->
    ((exists r, In r (rows df) /\
                (exists q, cell binary_var r = Num q /\ (q == cls)%Q) /\
                is_Some (cut_code (edges ch) (cell field r))) ->
     forall h, In h bars -> exists q, h = Fin q /\ (0 <= q)%Q /\ (q <= 1)%Q) /\
    ((forall r, In r (rows df) ->
                (exists q, cell binary_var r = Num q /\ (q == cls)%Q) ->
                cut_code (edges ch) (cell field r) = None) ->
     forall h, In h bars -> h = FNaN).
Proof.
  intros H cls bars Hside.
  apply barchart_continuous_inv in H
    as (t & f & lo & hi & bins & ct & cf & Ht & Hf & _ & _ & _ & Hct & Hcf & ->).
  apply cut_Ok in Hct, Hcf. subst ct cf. cbn [edges bars_true bars_false] in *.
  assert (Hgen : exists sub,
             loc_eq df binary_var cls = Ok sub /\
             bars = fractions (length (intervals bins))
                      (map (cut_code bins) (map (cell field) sub))).
  { destruct Hside as [[-> ->]|[-> ->]]; eauto. }
  destruct Hgen as (sub & Hsub & ->). split.
  - intros (r & Hr & Hq & Hs) h Hh.
    apply (fractions_values _ _ _ Hh).
    exists (cut_code bins (cell field r)). split; [|exact Hs].
    apply in_map, in_map. apply (loc_eq_In _ _ _ _ r Hsub). now split.
  - intros Hnone h Hh. apply (fractions_values _ _ _ Hh).
    intros c Hc. apply in_map_iff in Hc as (v & <- & Hv).
    apply in_map_iff in Hv as (r & <- & Hr).
    apply (loc_eq_In _ _ _ _ r Hsub) in Hr as [Hr Hq]. now apply Hnone.
Qed.

Lemma bar_heights_range_witness :
  barchart_continuous constant_field "x" "y" 2 None None =
    Ok (mkChart [Fin 3; Fin 3] [(Fin 3, Fin 3)] [FNaN] [FNaN]) /\
  forall h, In h [FNaN] -> h = FNaN.
Proof.
  split; [vm_compute; reflexivity|].
  refine (proj2 (bar_heights_range constant_field "x" "y" 2 None None
                   (mkChart [Fin 3; Fin 3] [(Fin 3, Fin 3)] [FNaN] [FNaN])
                   _ 1%Q [FNaN] _) _).
  - vm_compute; reflexivity.
  - left. split; reflexivity.
  - intros r [<-|[<-|[]]] _; vm_compute; reflexivity.
Defined.

(** ** barchart_continuous: the default range *)

Lemma qmin_le a b : (qmin a b <= a)%Q /\ (qmin a b <= b)%Q.
Proof.
  unfold qmin. destruct (Qle_bool a b) eqn:E.
  - apply Qle_bool_iff in E. split; lra.
  - destruct (Qlt_le_dec b a) as [H|H]; [split; lra|].
    apply Qle_bool_iff in H. congruence.
Qed.

Lemma qmax_ge a b : (a <= qmax a b)%Q /\ (b <= qmax a b)%Q.
Proof.
  unfold qmax. destruct (Qle_bool a b) eqn:E.
  - apply Qle_bool_iff in E. split; lra.
  - destruct (Qlt_le_dec b a) as [H|H]; [split; lra|].
    apply Qle_bool_iff in H. congruence.
Qed.

Lemma Qmin_list_spec l m :
  Qmin_list l = Fin m -> In m l /\ forall y, In y l -> (m <= y)%Q.
Proof.
  destruct l as [|x l]; simpl; [discriminate|]. intros [= <-].
  induction l as [|z l [IHin IHle]]; simpl.
  - split; [now left|]. intros y [<-|[]]. lra.
  - destruct (qmin_le z (fold_right qmin x l)) as [H1 H2]. split.
    + set (F := fold_right qmin x l) in *. unfold qmin.
      destruct (Qle_bool z F); [right; now left|].
      destruct IHin as [E|E]; [now left|right; now right].
    + intros y [<-|[<-|Hy]].
      * specialize (IHle x (or_introl eq_refl)). lra.
      * exact H1.
      * specialize (IHle y (or_intror Hy)). lra.
Qed.

Lemma Qmax_list_spec l m :
  Qmax_list l = Fin m -> forall y, In y l -> (y <= m)%Q.
Proof.
  destruct l as [|x l]; simpl; [discriminate|]. intros [= <-].
  induction l as [|z l IHle]; simpl.
  - intros y [<-|[]]. lra.
  - destruct (qmax_ge z (fold_right qmax x l)) as [H1 H2].
    intros y [<-|[<-|Hy]].
    + specialize (IHle x (or_introl eq_refl)). lra.
    + exact H1.
    + specialize (IHle y (or_intror Hy)). lra.
Qed.

Lemma numeric_column_numbers l xs :
  numeric_column l = Ok xs ->
  forall x, In x (omap id xs) <-> In (Num x) l.
Proof.
  revert xs. induction l as [|v l IH]; simpl; intros xs H x.
  - injection H as <-. reflexivity.
  - destruct (numeric v) as [o|] eqn:Ev; simpl in H; [|discriminate].
    destruct (numeric_column l) as [ys|] eqn:El; simpl in H; [|discriminate].
    injection H as <-. specialize (IH ys eq_refl x).
    destruct v as [q|s| |]; simpl in Ev; try discriminate;
      injection Ev as <-; cbn; rewrite IH; [|split; [auto|]..].
    + split; (intros [E|E]; [left; congruence|now right]).
    + intros [E|E]; [discriminate|exact E].
    + intros [E|E]; [discriminate|exact E].
Qed.

Lemma fadd_nan_r v : fadd v FNaN = FNaN.
Proof. now destruct v. Qed.

(** With two or more samples, edges without a NaN come from two numbers. *)
Lemma linspace_finite lo hi n bins :
  (2 <= n)%Z -> linspace lo hi n = Ok bins -> existsb fisnan bins = false ->
  exists a b, lo = Fin a /\ hi = Fin b.
Proof.
  intros Hn Hlin Hnan. unfold linspace in Hlin.
  destruct (Z.ltb_spec n 0); [lia|].
  destruct (Z.ltb_spec 1 n); [|lia].
  injection Hlin as <-. rewrite existsb_app in Hnan.
  apply orb_false_iff in Hnan as [H1 H2].
  destruct hi as [b|]; [|simpl in H2; discriminate].
  destruct lo as [a|]; [eauto|]. exfalso.
  replace (Z.to_nat n) with (S (Z.to_nat (n - 1))) in H1 by lia.
  destruct (Z.to_nat (n - 1)) as [|m] eqn:E; [lia|].
  destruct (0 <? n - 1)%Z; cbn in H1; discriminate.
Qed.

Lemma linspace_edges_range a b n bins v :
  (2 <= n)%Z -> (a <= b)%Q -> linspace (Fin a) (Fin b) n = Ok bins ->
  is_Some (cut_code bins v) <-> exists x, v = Num x /\ (a < x)%Q /\ (x <= b)%Q.
Proof.
  intros Hn Hab Hlin.
  destruct (linspace_points a b n Hn) as (qs & Hqs & Hlen & Hnth & Hlast).
  rewrite Hqs in Hlin. injection Hlin as <-.
  apply cut_code_range.
  - intros q Hq. destruct (In_nth _ _ 0%Q Hq) as (i & Hi & <-).
    rewrite (Hnth i Hi). apply sample_bounds; auto. lia.
  - exists (nth 0 qs 0%Q). split; [apply nth_In; lia|].
    rewrite Hnth by lia. unfold sample. simpl. ring.
  - exists (nth (length qs - 1) qs 0%Q). split; [apply nth_In; lia|].
    now rewrite Hlast.
Qed.

Lemma default_min_None df field m :
  default_min df field None = Ok (Fin m) ->
  (exists r, In r (rows df) /\ cell field r = Num m) /\
  forall r x, In r (rows df) -> cell field r = Num x -> (m <= x)%Q.
Proof.
  unfold default_min, getitem.
  destruct (has_column df field); simpl; [|discriminate].
  destruct (numeric_column (map (cell field) (rows df))) as [xs|] eqn:E; simpl;
    [|discriminate].
  intros [= H]. apply Qmin_list_spec in H as [Hin Hle].
  pose proof (numeric_column_numbers _ _ E) as Hnum. split.
  - apply Hnum, in_map_iff in Hin as (r & Hr & Hrin). eauto.
  - intros r x Hr Hx. apply Hle, Hnum. rewrite <- Hx. now apply in_map.
Qed.

Lemma default_max_None df field m :
  default_max df field None = Ok (Fin m) ->
  forall r x, In r (rows df) -> cell field r = Num x -> (x <= m)%Q.
Proof.
  unfold default_max, getitem.
  destruct (has_column df field); simpl; [|discriminate].
  destruct (numeric_column (map (cell field) (rows df))) as [xs|] eqn:E; simpl;
    [|discriminate].
  intros [= H] r x Hr Hx.
  apply (Qmax_list_spec _ _ H), (numeric_column_numbers _ _ E).
  rewrite <- Hx. now apply in_map.
Qed.

(** X16. With the range left to its default, at least two boundary points
    and a field whose numbers float64 holds exactly, the range is the
    observed minimum and maximum of the field, both attained or bounded by
    every number of the field, and a number of the field is assigned to a
    bucket exactly when it is not the minimum: the records that hold the
    smallest value are never drawn. *)
Theorem default_range_drops_minimum df field binary_var n ch :
  barchart_continuous df field binary_var n None None = Ok ch ->
  (2 <= n)%Z ->
  (forall r x, In r (rows df) -> cell field r = Num x -> float64_exact x) ->
  exists lo hi,
    default_min df field None = Ok (Fin lo) /\
    default_max df field None = Ok (Fin hi) /\
    (exists r, In r (rows df) /\ cell field r = Num lo) /\
    forall r x, In r (rows df) -> cell field r = Num x ->
      (lo <= x)%Q /\ (x <= hi)%Q /\
      (is_Some (cut_code (edges ch) (Num x)) <-> ~ (x == lo)%Q).
Proof.
  intros H Hn _. apply barchart_continuous_inv in H
    as (t & f & lo & hi & bins & ct & cf & _ & _ & Hlo & Hhi & Hlin & Hct & _ & ->).
  cbn [edges].
  destruct (linspace_length _ _ _ _ Hlin) as [_ Hlen].
  destruct (cut_Ok_checks _ _ _ Hct) as [_ Hnan].
  destruct (linspace_finite lo hi n bins Hn Hlin) as (a & b & -> & ->);
    [apply Hnan; lia|].
  assert (Hab : (a <= b)%Q).
  { destruct (Qlt_le_dec b a) as [Hlt|Hle]; [|exact Hle]. exfalso.
    pose proof (cut_rejects (map (cell field) t) bins
                  (linspace_rejected _ _ _ _ Hlin (or_introl (conj Hn Hlt)))) as Hr.
    now rewrite Hct in Hr. }
  destruct (default_min_None _ _ _ Hlo) as [Hat Hmin].
  pose proof (default_max_None _ _ _ Hhi) as Hmax.
  exists a, b. repeat split; auto.
  - now apply (Hmin r).
  - now apply (Hmax r).
  - intros Hs. apply (linspace_edges_range a b n bins (Num x) Hn Hab Hlin) in Hs
      as (x' & [= <-] & Hlt & _). lra.
  - intros Hne. apply (linspace_edges_range a b n bins (Num x) Hn Hab Hlin).
    exists x. split; [reflexivity|]. specialize (Hmin r x H H0).
    specialize (Hmax r x H H0). split; [|exact Hmax].
    destruct (Qlt_le_dec a x) as [Hlt|Hle]; [exact Hlt|].
    exfalso. apply Hne. lra.
Qed.

Lemma default_range_drops_minimum_witness :
  exists ch lo hi,
    barchart_continuous three_points "x" "y" 5 None None = Ok ch /\
    (2 <= 5)%Z /\
    (forall r x, In r (rows three_points) -> cell "x" r = Num x ->
                 float64_exact x) /\
    default_min three_points "x" None = Ok (Fin lo) /\
    default_max three_points "x" None = Ok (Fin hi) /\
    (exists r, In r (rows three_points) /\ cell "x" r = Num lo) /\
    (is_Some (cut_code (edges ch) (Num 50)) <-> ~ (50 == lo)%Q) /\
    (is_Some (cut_code (edges ch) (Num 0)) <-> ~ (0 == lo)%Q).
Proof.
  assert (Hex : forall r x, In r (rows three_points) -> cell "x" r = Num x ->
                            float64_exact x).
  { intros r x Hr Hx.
    assert (Hz : exists z, (Z.abs z < 2 ^ 53)%Z /\ x = inject_Z z).
    { destruct Hr as [<-|[<-|[<-|[]]]];
        vm_compute in Hx; injection Hx as <-;
        [exists 0%Z|exists 50%Z|exists 100%Z]; split; reflexivity. }
    destruct Hz as (z & Hz & ->). now apply float64_exact_Z. }
  eexists.
  destruct (default_range_drops_minimum three_points "x" "y" 5 _ eq_refl
              ltac:(lia) Hex)
    as (lo & hi & H1 & H2 & H3 & H4).
  exists lo, hi. split; [reflexivity|]. split; [lia|]. split; [exact Hex|].
  split; [exact H1|]. split; [exact H2|]. split; [exact H3|].
  split.
  - exact (proj2 (proj2 (H4 (mkrow [("x", Num 50); ("y", Num 1)]) 50%Q
                           (or_intror (or_introl eq_refl)) eq_refl))).
  - exact (proj2 (proj2 (H4 (mkrow [("x", Num 0); ("y", Num 1)]) 0%Q
                           (or_introl eq_refl) eq_refl))).
Defined.

Lemma has_str_In l : has_str l = false -> forall v, In v l -> forall s, v <> Str s.
Proof.
  unfold has_str. intros H v Hv s ->.
  assert (existsb (fun v => match v with Str _ => true | _ => false end) l = true)
    by (apply existsb_exists; eauto).
  congruence.
Qed.

Lemma cut_Ok_no_str x bins codes :
  cut x bins = Ok codes -> (0 < length bins)%nat -> has_str x = false.
Proof.
  unfold cut. intros H Hlen.
  destruct (decreases bins); [discriminate|].
  destruct (duplicate_edges bins); [discriminate|].
  destruct (has_str x); [|reflexivity].
  destruct (Nat.eqb_spec (length bins) 0); [lia|discriminate].
Qed.

(** X17. A chart is returned only if both columns exist and, when there is
    at least one bin edge (n >= 1), no record of either class (binary field 1
    or 0) holds a string in the field. *)
Theorem barchart_continuous_needs df field binary_var n min max ch :
  barchart_continuous df field binary_var n min max = Ok ch ->
  has_column df binary_var = true /\
  has_column df field = true /\
  ((1 <= n)%Z ->
   forall r, In r (rows df) ->
     (exists q, cell binary_var r = Num q /\ (q == 1 \/ q == 0)%Q) ->
     forall s, cell field r <> Str s).
Proof.
  intros H. pose proof H as H'. apply barchart_continuous_inv in H
    as (t & f & lo & hi & bins & ct & cf & Ht & Hf & Hlo & Hhi & Hlin & Hct & Hcf & _).
  split; [|split].
  - unfold dataset_true, loc_eq in Ht.
    destruct (has_column df binary_var); [reflexivity|discriminate].
  - unfold barchart_continuous in H'. rewrite Ht, Hf in H'. cbn in H'.
    rewrite Hlo in H'. cbn in H'. rewrite Hhi in H'. cbn in H'.
    rewrite Hlin in H'. cbn in H'. unfold getitem in H'.
    destruct (has_column df field); [reflexivity|discriminate].
  - intros Hn r Hr (q & Hq & [E|E]) s.
    + apply (has_str_In (map (cell field) t)); [|apply in_map].
      * apply (cut_Ok_no_str _ _ _ Hct).
        destruct (linspace_length _ _ _ _ Hlin) as [_ ->]. lia.
      * apply (loc_eq_In _ _ _ _ r Ht). eauto.
    + apply (has_str_In (map (cell field) f)); [|apply in_map].
      * apply (cut_Ok_no_str _ _ _ Hcf).
        destruct (linspace_length _ _ _ _ Hlin) as [_ ->]. lia.
      * apply (loc_eq_In _ _ _ _ r Hf). eauto.
Qed.

Lemma barchart_continuous_needs_witness :
  exists ch,
    barchart_continuous three_points "x" "y" 5 None None = Ok ch /\
    has_column three_points "y" = true /\ has_column three_points "x" = true /\
    forall s, cell "x" (mkrow [("x", Num 50); ("y", Num 1)]) <> Str s.
Proof.
  eexists.
  destruct (barchart_continuous_needs three_points "x" "y" 5 None None _ eq_refl)
    as (H1 & H2 & H3).
  split; [reflexivity|]. split; [exact H1|]. split; [exact H2|].
  apply H3; [lia|right; left; reflexivity|].
  exists 1%Q. split; [reflexivity|left; reflexivity].
Defined.

(** ** piechart: edge cases of [cats] and of the total *)

(** X18. With [cats = 0] the table is the single row Others: its Count is
    the grand total and its Concentration is 1.0 - 0 = 1. *)
Theorem piechart_no_category_kept df field unique_identifier T :
  piechart df field 0 unique_identifier = Ok T ->
  exists others,
    T = [others] /\
    label others = Str "Others" /\
    Count others =
      Z.of_nat (length (List.filter
                          (fun r => negb (isna (cell field r))
                                    && nonzero (cell unique_identifier r))
                          (rows df))) /\
    Concentration others = Fin (1 - 0).
Proof.
  intros H. destruct (piechart_inv _ _ _ _ _ H) as (agg & Hagg & _ & HT).
  pose proof (piechart_total _ _ _ _ _ _ Hagg H) as Htot.
  destruct (pivot_table_counts _ _ _ _ Hagg) as [Hc _].
  rewrite Hc, groups_partition in Htot.
  cbv zeta in HT. unfold head_slice in HT. simpl in HT. subst T.
  eexists. split; [reflexivity|]. split; [reflexivity|]. split; [|reflexivity].
  simpl in Htot. simpl. lia.
Qed.

Lemma piechart_no_category_kept_witness :
  exists others,
    piechart colors "color" 0 "VIN" = Ok [others] /\
    Count others = 10%Z /\ Concentration others = Fin (1 - 0).
Proof.
  destruct (piechart_no_category_kept colors "color" "VIN" _ eq_refl)
    as (others & HT & _ & Hc & Hq).
  exists others. split; [now rewrite <- HT|]. split; [exact Hc|exact Hq].
Defined.

Lemma nansum_all_nan l :
  (forall x, In x l -> x = FNaN) -> nansum l = 0%Q.
Proof.
  intros H. unfold nansum.
  replace (omap (fun x => match x with Fin q => Some q | FNaN => None end) l)
    with (@nil Q); [reflexivity|].
  induction l as [|x l IH]; [reflexivity|].
  cbn. rewrite (H x (or_introl eq_refl)). apply IH.
  intros y Hy. apply H. now right.
Qed.

(** X19. When the grand total is 0 there is no zero guard: every retained
    row has Count 0 and Concentration NaN (0/0), and the Others row has Count
    0 and Concentration 1.0 - 0 = 1, the NaN being skipped by the sum. *)
Theorem piechart_zero_total df field cats unique_identifier T :
  piechart df field cats unique_identifier = Ok T ->
  Zsum (map Count T) = 0%Z ->
  exists top others,
    T = top ++ [others] /\
    (forall a, In a top -> Count a = 0%Z /\ Concentration a = FNaN) /\
    label others = Str "Others" /\
    Count others = 0%Z /\
    Concentration others = Fin (1 - 0).
Proof.
  intros H Hzero.
  destruct (piechart_inv _ _ _ _ _ H) as (agg & Hagg & _ & HT).
  rewrite (piechart_total _ _ _ _ _ _ Hagg H) in Hzero.
  pose proof (sorted_counts_nonneg _ _ _ _ Hagg) as Hnn.
  rewrite <- (Zsum_perm _ _ (Permutation_map p_count (sort_values_desc_perm agg)))
    in Hzero.
  cbv zeta in HT. subst T.
  set (pvt := add_concentration (sort_values_desc agg)).
  assert (Hrows : forall a, In a pvt -> Count a = 0%Z /\ Concentration a = FNaN).
  { intros a Ha. unfold pvt, add_concentration in Ha. rewrite Hzero in Ha.
    apply in_map_iff in Ha as (x & <- & Hx). cbn. split; [|reflexivity].
    pose proof (Zsum_In_le _ (p_count x) Hnn (in_map p_count _ _ Hx)). lia. }
  destruct (head_slice_prefix cats pvt) as [rest Hrest].
  assert (Htop : forall a, In a (head_slice cats pvt) -> In a pvt).
  { intros a Ha. rewrite Hrest. apply in_or_app. now left. }
  eexists _, _. split; [reflexivity|]. split; [auto|]. split; [reflexivity|].
  unfold others_row. cbn [Count Concentration]. split.
  - assert (Hz : forall l, (forall a, In a l -> Count a = 0%Z) ->
                           Zsum (map Count l) = 0%Z).
    { induction l as [|a l IH]; intros Hl; [reflexivity|].
      change (Zsum (map Count (a :: l)))
        with (Count a + Zsum (map Count l))%Z.
      rewrite (Hl a (or_introl eq_refl)), IH; [reflexivity|].
      intros b Hb. apply Hl. now right. }
    rewrite !Hz; [reflexivity| |]; intros a Ha; apply Hrows; auto.
  - rewrite nansum_all_nan; [reflexivity|].
    intros x Hx. apply in_map_iff in Hx as (a & <- & Ha).
    now apply Hrows, Htop.
Qed.

Lemma piechart_zero_total_witness :
  exists T top others,
    piechart unidentified "color" 2 "VIN" = Ok T /\
    Zsum (map Count T) = 0%Z /\
    T = top ++ [others] /\
    Count others = 0%Z /\ Concentration others = Fin (1 - 0).
Proof.
  eexists.
  destruct (piechart_zero_total unidentified "color" 2 "VIN" _ eq_refl)
    as (top & others & HT & _ & _ & Hc & Hq); [reflexivity|].
  exists top, others. split; [reflexivity|]. split; [reflexivity|].
  split; [exact HT|]. split; [exact Hc|exact Hq].
Defined.
